(** * Format removal: the registry of removable formats and its toggle button

    A shallow embedding of [ts/editor/editor-toolbar/RemoveFormatButton.svelte]
    together with the two handlers of the rich-text input that drive the
    surrounder ([setFocus] and [removeFocus]).

    JavaScript objects are shared by reference: the array held by the
    [removeFormats] store and the array [showFormats] derived from it hold
    the {e same} objects, and [onItemClick] mutates them in place.  Objects
    therefore live in a heap (a list indexed by location) and arrays hold
    locations.  The component's reactive declarations ([$: x = ...]) are
    cached variables that Svelte recomputes, when the store was set, after the
    running handler has returned and before the next event is dispatched.

    The second part embeds the script of the rich-text input itself: its type
    guard, [toggle] and the reactive statement on [hidden], the caret and
    focus helpers, and the focus handlers acting on [focusedInput]. *)

From stdpp Require Import base list strings.

(** ** Data *)

Module RemoveFormat.

(** Modelled from the spec: the interface [RemoveFormat] is declared in
    [EditorToolbar.svelte]; its four fields are those of the object
    literal that the button appends to the registry. *)
Record t : Type := mk {
  name : string;
  key : string;
  show : bool;
  active : bool;
}.

(** [format.active = v] *)
Definition set_active (v : bool) (f : t) : t :=
  {| name := name f; key := key f; show := show f; active := v |}.

#[global] Instance inhabited : Inhabited t := populate (mk "" "" false false).

#[global] Instance eq_dec : EqDecision t.
Proof. solve_decision. Defined.

End RemoveFormat.

Module Dom.

(** What the matcher reads of an element: [element.tagName],
    [element.className] and [element.style.cssText]. *)
Record Element : Type := {
  tagName : string;
  className : string;
  cssText : string;
}.

Definition upper (c : Ascii.ascii) : Ascii.ascii :=
  let n := Ascii.nat_of_ascii c in
  if (97 <=? n) && (n <=? 122) then Ascii.ascii_of_nat (n - 32) else c.

Fixpoint toUpperCase (s : string) : string :=
  match s with
  | EmptyString => EmptyString
  | String c s' => String (upper c) (toUpperCase s')
  end.

(** [document.createElement(tag)]: a fresh HTML element without class or
    inline style; the DOM reports its tag name in upper case. *)
Definition createElement (tag : string) : Element :=
  {| tagName := toUpperCase tag; className := ""; cssText := "" |}.

End Dom.

Module MatchType.

(** Modelled from the spec: [MatchType] comes from [domlib/surround]; the
    only method the button's matcher calls is [remove()].  A match object
    is represented by the number of times [remove()] was called on it. *)
Record t : Type := { removeCalls : nat }.

Definition fresh : t := {| removeCalls := 0 |}.

(** [match.remove()] *)
Definition remove (m : t) : t := {| removeCalls := S (removeCalls m) |}.

End MatchType.

Module Surrounder.

(** The descriptor handed to [registerFormat]. *)
Record Format : Type := {
  matcher : Dom.Element → MatchType.t → MatchType.t;
  surroundElement : Dom.Element;
}.

(** Modelled from the spec: the class [Surrounder] lives in
    [editor/surround]; only its interface is used here.  It owns the
    [active] observable (its latest value), the formats registered with
    [registerFormat], and receives the calls to [remove]. *)
Record t : Type := {
  active : bool;
  formats : list (string * Format);
  removed : list (list string * list string);
}.

Definition make : t := {| active := false; formats := []; removed := [] |}.

(** [surrounder.remove(activeKeys, inactiveKeys)] *)
Definition remove (activeKeys inactiveKeys : list string) (s : t) : t :=
  {| active := active s;
     formats := formats s;
     removed := removed s ++ [(activeKeys, inactiveKeys)] |}.

(** [surrounder.registerFormat(key, format)] *)
Definition registerFormat (key : string) (format : Format) (s : t) : t :=
  {| active := active s;
     formats := formats s ++ [(key, format)];
     removed := removed s |}.

(** The [active] store takes the value [v]. *)
Definition set_active (v : bool) (s : t) : t :=
  {| active := v; formats := formats s; removed := removed s |}.

End Surrounder.

(** Locations of [RemoveFormat] objects in the heap. *)
Abbreviation loc := nat (only parsing).

Abbreviation Heap := (list RemoveFormat.t) (only parsing).

(** Reading a field through a reference. *)
Definition deref (h : Heap) (l : loc) : RemoveFormat.t := h !!! l.

(** [format.active = v] on the object at [l]. *)
Definition assign_active (l : loc) (v : bool) (h : Heap) : Heap :=
  alter (RemoveFormat.set_active v) l h.

(** ** The component *)

Module RemoveFormatButton.

(** [const surroundElement = document.createElement("span")] *)
Definition surroundElement : Dom.Element := Dom.createElement "span".

Definition matcher (element : Dom.Element) (match_ : MatchType.t) : MatchType.t :=
  if String.eqb (Dom.tagName element) "SPAN"
     && (String.length (Dom.className element) =? 0)
     && (String.length (Dom.cssText element) =? 0)
  then MatchType.remove match_
  else match_.

Definition key : string := "simple spans".

Definition format : Surrounder.Format :=
  {| Surrounder.matcher := matcher;
     Surrounder.surroundElement := surroundElement |}.

(** The object literal appended to the registry. *)
Definition builtin : RemoveFormat.t :=
  {| RemoveFormat.key := key;
     RemoveFormat.name := key;
     RemoveFormat.show := false;
     RemoveFormat.active := true |}.

Definition keyCombination : string := "Control+R".

(** The heap, the value of the [removeFormats] store, the surrounder, and
    the component's variables.  [dirty] records that the store was set
    since the reactive declarations last ran; [subscribed] records that the
    component's subscriber is registered with the surrounder's [active]
    store, which is the case from [onMount] on. *)
Record State : Type := mkState {
  heap : Heap;
  removeFormats : list loc;
  surrounder : Surrounder.t;
  dirty : bool;
  activeKeys : list string;
  inactiveKeys : list string;
  showFormats : list loc;
  disabled : option bool;
  subscribed : bool;
}.

(** [$removeFormats.filter((format) => format.active).map((format) => format.key)] *)
Definition activeKeys_of (h : Heap) (formats : list loc) : list string :=
  (λ format, RemoveFormat.key (deref h format))
    <$> filter (λ format, RemoveFormat.active (deref h format)) formats.

(** [$removeFormats.filter((format) => !format.active).map((format) => format.key)] *)
Definition inactiveKeys_of (h : Heap) (formats : list loc) : list string :=
  (λ format, RemoveFormat.key (deref h format))
    <$> filter (λ format, negb (RemoveFormat.active (deref h format))) formats.

(** [$removeFormats.filter((format) => format.show)] *)
Definition showFormats_of (h : Heap) (formats : list loc) : list loc :=
  filter (λ format, RemoveFormat.show (deref h format)) formats.

(** The three reactive declarations; they run when [$removeFormats] has
    been invalidated. *)
Definition update (st : State) : State :=
  if dirty st then
    {| heap := heap st;
       removeFormats := removeFormats st;
       surrounder := surrounder st;
       dirty := false;
       activeKeys := activeKeys_of (heap st) (removeFormats st);
       inactiveKeys := inactiveKeys_of (heap st) (removeFormats st);
       showFormats := showFormats_of (heap st) (removeFormats st);
       disabled := disabled st;
       subscribed := subscribed st |}
  else st.

(** [removeFormats.update((formats) => formats.concat(entry))]: the object
    literal is a new object, [concat] returns a new array ending in it, and
    setting the store invalidates [$removeFormats]. *)
Definition register (entry : RemoveFormat.t) (st : State) : State :=
  {| heap := heap st ++ [entry];
     removeFormats := removeFormats st ++ [length (heap st)];
     surrounder := surrounder st;
     dirty := true;
     activeKeys := activeKeys st;
     inactiveKeys := inactiveKeys st;
     showFormats := showFormats st;
     disabled := disabled st;
     subscribed := subscribed st |}.

(** [function remove()] *)
Definition remove (st : State) : State :=
  {| heap := heap st;
     removeFormats := removeFormats st;
     surrounder := Surrounder.remove (activeKeys st) (inactiveKeys st) (surrounder st);
     dirty := dirty st;
     activeKeys := activeKeys st;
     inactiveKeys := inactiveKeys st;
     showFormats := showFormats st;
     disabled := disabled st;
     subscribed := subscribed st |}.

(** [for (const format of showFormats) { format.active = false; }] *)
Definition clearAll (formats : list loc) (h : Heap) : Heap :=
  foldl (λ h format, assign_active format false h) h formats.

(** [format.active = !format.active] *)
Definition toggle (format : loc) (h : Heap) : Heap :=
  assign_active format (negb (RemoveFormat.active (deref h format))) h.

(** [function onItemClick(event, format)], with [alt = altPressed(event)].
    The last statement sets the store to its own value, which invalidates
    [$removeFormats]. *)
Definition onItemClick (alt : bool) (format : loc) (st : State) : State :=
  let h := if alt then clearAll (showFormats st) (heap st) else heap st in
  {| heap := toggle format h;
     removeFormats := removeFormats st;
     surrounder := surrounder st;
     dirty := true;
     activeKeys := activeKeys st;
     inactiveKeys := inactiveKeys st;
     showFormats := showFormats st;
     disabled := disabled st;
     subscribed := subscribed st |}.

(** The subscriber [(value) => (disabled = !value)]. *)
Definition onActive (value : bool) (st : State) : State :=
  {| heap := heap st;
     removeFormats := removeFormats st;
     surrounder := surrounder st;
     dirty := dirty st;
     activeKeys := activeKeys st;
     inactiveKeys := inactiveKeys st;
     showFormats := showFormats st;
     disabled := Some (negb value);
     subscribed := subscribed st |}.

Definition with_surrounder (s : Surrounder.t) (st : State) : State :=
  {| heap := heap st;
     removeFormats := removeFormats st;
     surrounder := s;
     dirty := dirty st;
     activeKeys := activeKeys st;
     inactiveKeys := inactiveKeys st;
     showFormats := showFormats st;
     disabled := disabled st;
     subscribed := subscribed st |}.

(** The script block of a new instance, run against the registry [formats]
    (over the heap [h]) and the surrounder [s] found in the context: the
    built-in entry is appended, then the reactive declarations run for the
    first time.  [disabled] is declared without a value. *)
Definition instance (h : Heap) (formats : list loc) (s : Surrounder.t) : State :=
  update (register builtin
    {| heap := h;
       removeFormats := formats;
       surrounder := s;
       dirty := false;
       activeKeys := [];
       inactiveKeys := [];
       showFormats := [];
       disabled := None;
       subscribed := false |}).

(** [surrounder.active.subscribe((value) => (disabled = !value))]:
    subscribing to a store registers the subscriber and calls it with the
    store's current value. *)
Definition subscribe (st : State) : State :=
  onActive (Surrounder.active (surrounder st))
    {| heap := heap st;
       removeFormats := removeFormats st;
       surrounder := surrounder st;
       dirty := dirty st;
       activeKeys := activeKeys st;
       inactiveKeys := inactiveKeys st;
       showFormats := showFormats st;
       disabled := disabled st;
       subscribed := true |}.

(** [onMount]: the component subscribes to [surrounder.active]; then the
    format is registered with the surrounder. *)
Definition onMount (st : State) : State :=
  let st := subscribe st in
  with_surrounder (Surrounder.registerFormat key format (surrounder st)) st.

Definition mount (h : Heap) (formats : list loc) (s : Surrounder.t) : State :=
  onMount (instance h formats s).

(** The [active] store of the surrounder emits [v]: the value is stored
    and the store calls its subscribers, the component's among them once it
    has subscribed. *)
Definition emit (v : bool) (st : State) : State :=
  let st := with_surrounder (Surrounder.set_active v (surrounder st)) st in
  if subscribed st then onActive v st else st.

End RemoveFormatButton.

Module RichTextInput.
Import RemoveFormatButton.

(** [function setFocus()]: [surrounder.enable(api)] makes an input the
    enabled one, so [active] emits [true]. *)
Definition setFocus (st : State) : State := emit true st.

(** [function removeFocus()]: [surrounder.disable()] leaves no input
    enabled, so [active] emits [false]. *)
Definition removeFocus (st : State) : State := emit false st.

End RichTextInput.

(** ** Events *)

Import RemoveFormatButton.

(** What can happen to a mounted button.  The dropdown renders one item per
    element of [showFormats], and a click on the [i]-th item calls
    [onItemClick(event, showFormats[i])].  The checkbox drawn inside an item
    belongs to [CheckBox.svelte]; what its binding does on its own is not an
    event here. *)
Inductive Event : Type :=
  | registration (entry : RemoveFormat.t)   (* another control registers its format *)
  | itemClick (alt : bool) (i : nat)        (* click on the i-th dropdown item *)
  | removeAction                            (* button click or Control+R *)
  | emission (v : bool)                     (* surrounder.active emits v *)
  | focusin                                 (* the rich-text input gains focus *)
  | focusout.                               (* the rich-text input loses focus *)

Definition handle (ev : Event) (st : State) : State :=
  match ev with
  | registration entry => register entry st
  | itemClick alt i =>
      match showFormats st !! i with
      | Some format => onItemClick alt format st
      | None => st
      end
  | removeAction => remove st
  | emission v => emit v st
  | focusin => RichTextInput.setFocus st
  | focusout => RichTextInput.removeFocus st
  end.

(** One event: its handler runs to completion, then Svelte flushes the
    pending reactive declarations. *)
Definition step (st : State) (ev : Event) : State := update (handle ev st).

Definition run (evs : list Event) (st : State) : State := foldl step st evs.

(** ** Vocabulary of the properties *)

(** An element the matcher strips: a [SPAN] without class and without inline
    style. *)
Definition bare_span (element : Dom.Element) : Prop :=
  Dom.tagName element = "SPAN"
  ∧ Dom.className element = ""
  ∧ Dom.cssText element = "".

(** [h'] differs from [h] at most in [active] flags. *)
Definition flags_only (h h' : Heap) : Prop :=
  ∀ l, ∃ v, h' !! l = RemoveFormat.set_active v <$> h !! l.

(** The entries offered in the dropdown: registered, with [show = true]. *)
Definition visible (st : State) (l : loc) : Prop :=
  l ∈ removeFormats st ∧ RemoveFormat.show (deref (heap st) l) = true.

(** Every reference held by the registry points to an object. *)
Definition valid (h : Heap) (formats : list loc) : Prop :=
  ∀ l, l ∈ formats → l < length h.

(** The reactive variables hold what their declarations compute from the
    present value of the store. *)
Definition current (st : State) : Prop :=
  activeKeys st = activeKeys_of (heap st) (removeFormats st)
  ∧ inactiveKeys st = inactiveKeys_of (heap st) (removeFormats st)
  ∧ showFormats st = showFormats_of (heap st) (removeFormats st).

(** A state between two events. *)
Definition settled (st : State) : Prop :=
  valid (heap st) (removeFormats st) ∧ current st.

(** The keys of the registered entries, in registration order. *)
Definition keys (st : State) : list string :=
  (λ l, RemoveFormat.key (deref (heap st) l)) <$> removeFormats st.

(** The views are current and the object at [b] is the built-in entry as it
    was appended. *)
Definition builtin_kept (b : loc) (st : State) : Prop :=
  current st ∧ heap st !! b = Some builtin.

(** The value an event makes the surrounder's [active] store emit. *)
Definition emitted (ev : Event) : option bool :=
  match ev with
  | emission v => Some v
  | focusin => Some true
  | focusout => Some false
  | _ => None
  end.

(** The latest value emitted during [evs]. *)
Definition latest (evs : list Event) : option bool := last (omap emitted evs).

(** A button mounted on an empty registry, and a visible entry named [k]. *)
Definition alone : State := mount [] [] Surrounder.make.

Definition entry (k : string) (a : bool) : RemoveFormat.t :=
  {| RemoveFormat.name := k; RemoveFormat.key := k;
     RemoveFormat.show := true; RemoveFormat.active := a |}.

(** How often an event of a kind occurs in a history. *)
Definition is_removal (ev : Event) : bool :=
  match ev with removeAction => true | _ => false end.

Definition is_registration (ev : Event) : bool :=
  match ev with registration _ => true | _ => false end.

Definition removals (evs : list Event) : nat := length (filter is_removal evs).

Definition registrations (evs : list Event) : nat := length (filter is_registration evs).

(** What the registration of [e] adds to a list computed under a test. *)
Definition added {A : Type} (test : bool) (x : A) : list A := if test then [x] else [].

(** ** The rich-text input

    The script of [RichTextInput.svelte]: the type guard, the caret and focus
    helpers of the api, [toggle] with the reactive statement that follows
    [hidden], and the two focus handlers. *)

Module EditingInputAPI.

(** The fields of the api object literal that the component reads and
    writes; the others are functions and promises. *)
Record t : Type := mk {
  name : string;
  focusable : bool;
}.

(** [api.focusable = v] *)
Definition set_focusable (v : bool) (i : t) : t :=
  {| name := name i; focusable := v |}.

#[global] Instance inhabited : Inhabited t := populate (mk "" false).

End EditingInputAPI.

Module Editable.

(** The methods called on the editable element. *)
Inductive Call : Type := blur | focus | placeCaretAfterContent.

(** The element behind [richTextPromise], as far as the helpers go: its
    [textContent] ([null] is [None]) and the calls made on it, in order. *)
Record t : Type := {
  textContent : option string;
  calls : list Call;
}.

Definition call (c : Call) (e : t) : t :=
  {| textContent := textContent e; calls := calls e ++ [c] |}.

End Editable.

Module RichText.

(** [editingInput?.name === "rich-text"]: on [null] the left side is
    [undefined]. *)
Definition editingInputIsRichText (editingInput : option EditingInputAPI.t) : bool :=
  match editingInput with
  | Some input => String.eqb (EditingInputAPI.name input) "rich-text"
  | None => false
  end.

(** [async function moveCaretToEnd()]: [richText.textContent?.length === 0]
    holds for the empty string only, not for [null]. *)
Definition moveCaretToEnd (richText : Editable.t) : Editable.t :=
  match Editable.textContent richText with
  | Some text =>
      if String.length text =? 0 then richText
      else Editable.call Editable.placeCaretAfterContent richText
  | None => Editable.call Editable.placeCaretAfterContent richText
  end.

(** [async function focus()] *)
Definition focus (richText : Editable.t) : Editable.t :=
  Editable.call Editable.focus richText.

(** [async function refocus()] *)
Definition refocus (richText : Editable.t) : Editable.t :=
  moveCaretToEnd (Editable.call Editable.focus (Editable.call Editable.blur richText)).

(** One input in its editing area.  The api objects of the area live in
    [inputs]; [api] is the reference to this input's own object and
    [editingInputs] is the array of the store of that name.  [sets] counts
    how often that store was set, [invalidated] records that [hidden] was
    assigned since the reactive statement last ran, and [toolbar] is the
    remove-format button, which holds the surrounder both components
    share. *)
Record State : Type := mkState {
  hidden : bool;
  invalidated : bool;
  inputs : list EditingInputAPI.t;
  api : nat;
  richTextDiv : nat;
  editingInputs : list nat;
  sets : nat;
  focusedInput : option nat;
  toolbar : RemoveFormatButton.State;
}.

(** [function toggle()]: returns the new value of [hidden]. *)
Definition toggle (st : State) : bool * State :=
  (negb (hidden st),
   {| hidden := negb (hidden st);
      invalidated := true;
      inputs := inputs st;
      api := api st;
      richTextDiv := richTextDiv st;
      editingInputs := editingInputs st;
      sets := sets st;
      focusedInput := focusedInput st;
      toolbar := toolbar st |}).

(** The parent assigns the prop [hidden]. *)
Definition set_hidden (v : bool) (st : State) : State :=
  {| hidden := v;
     invalidated := true;
     inputs := inputs st;
     api := api st;
     richTextDiv := richTextDiv st;
     editingInputs := editingInputs st;
     sets := sets st;
     focusedInput := focusedInput st;
     toolbar := toolbar st |}.

(** [async function getInputAPI(target)] *)
Definition getInputAPI (target : nat) (st : State) : option nat :=
  if decide (target = richTextDiv st) then Some (api st) else None.

(** [function pushUpdate(isFocusable)] *)
Definition pushUpdate (isFocusable : bool) (st : State) : State :=
  {| hidden := hidden st;
     invalidated := invalidated st;
     inputs := alter (EditingInputAPI.set_focusable isFocusable) (api st) (inputs st);
     api := api st;
     richTextDiv := richTextDiv st;
     editingInputs := editingInputs st;
     sets := S (sets st);
     focusedInput := focusedInput st;
     toolbar := toolbar st |}.

(** [$: pushUpdate(!hidden)], together with the reactive declarations of the
    button. *)
Definition update (st : State) : State :=
  let st' :=
    if invalidated st then
      pushUpdate (negb (hidden st))
        {| hidden := hidden st;
           invalidated := false;
           inputs := inputs st;
           api := api st;
           richTextDiv := richTextDiv st;
           editingInputs := editingInputs st;
           sets := sets st;
           focusedInput := focusedInput st;
           toolbar := toolbar st |}
    else st in
  {| hidden := hidden st';
     invalidated := invalidated st';
     inputs := inputs st';
     api := api st';
     richTextDiv := richTextDiv st';
     editingInputs := editingInputs st';
     sets := sets st';
     focusedInput := focusedInput st';
     toolbar := RemoveFormatButton.update (toolbar st') |}.

(** [function setFocus()] *)
Definition setFocus (st : State) : State :=
  {| hidden := hidden st;
     invalidated := invalidated st;
     inputs := inputs st;
     api := api st;
     richTextDiv := richTextDiv st;
     editingInputs := editingInputs st;
     sets := sets st;
     focusedInput := Some (api st);
     toolbar := RichTextInput.setFocus (toolbar st) |}.

(** [function removeFocus()]: [focusedInput] is not unset. *)
Definition removeFocus (st : State) : State :=
  {| hidden := hidden st;
     invalidated := invalidated st;
     inputs := inputs st;
     api := api st;
     richTextDiv := richTextDiv st;
     editingInputs := editingInputs st;
     sets := sets st;
     focusedInput := focusedInput st;
     toolbar := RichTextInput.removeFocus (toolbar st) |}.

(** The script of a new instance with the prop [hidden], in an area whose api
    objects are [others] and whose store holds [area]: the api object is
    created with [name: "rich-text"] and [focusable: !hidden], and the
    reactive statement runs for the first time. *)
Definition instance (hidden0 : bool) (others : list EditingInputAPI.t) (area : list nat)
    (focused : option nat) (div : nat) (button : RemoveFormatButton.State) : State :=
  update
    {| hidden := hidden0;
       invalidated := true;
       inputs := others ++ [{| EditingInputAPI.name := "rich-text";
                               EditingInputAPI.focusable := negb hidden0 |}];
       api := length others;
       richTextDiv := div;
       editingInputs := area;
       sets := 0;
       focusedInput := focused;
       toolbar := button |}.

(** [onMount]: [$editingInputs.push(api); $editingInputs = $editingInputs]. *)
Definition onMount (st : State) : State :=
  {| hidden := hidden st;
     invalidated := invalidated st;
     inputs := inputs st;
     api := api st;
     richTextDiv := richTextDiv st;
     editingInputs := editingInputs st ++ [api st];
     sets := S (sets st);
     focusedInput := focusedInput st;
     toolbar := toolbar st |}.

Definition mount (hidden0 : bool) (others : list EditingInputAPI.t) (area : list nat)
    (focused : option nat) (div : nat) (button : RemoveFormatButton.State) : State :=
  onMount (instance hidden0 others area focused div button).

(** [setFocus] of another rich-text input of the note, whose api object is
    [input]: the [focusedInput] store and the surrounder are shared by all
    inputs. *)
Definition setFocus_of (input : nat) (st : State) : State :=
  {| hidden := hidden st;
     invalidated := invalidated st;
     inputs := inputs st;
     api := api st;
     richTextDiv := richTextDiv st;
     editingInputs := editingInputs st;
     sets := sets st;
     focusedInput := Some input;
     toolbar := RichTextInput.setFocus (toolbar st) |}.

(** What can happen to a mounted input. *)
Inductive Action : Type :=
  | domFocusin                  (* [on:focusin] of the wrapper *)
  | domFocusout                 (* [on:focusout] of the wrapper *)
  | callToggle                  (* [api.toggle()] *)
  | propHidden (v : bool)       (* the parent sets [hidden] *)
  | otherFocusin (input : nat)  (* [on:focusin] of another rich-text input *)
  | otherFocusout               (* [on:focusout] of another rich-text input *)
  | button (ev : Event).        (* an event of the remove-format button *)

Definition handle (a : Action) (st : State) : State :=
  match a with
  | domFocusin => setFocus st
  | domFocusout => removeFocus st
  | callToggle => (toggle st).2
  | propHidden v => set_hidden v st
  | otherFocusin input => setFocus_of input st
  | otherFocusout => removeFocus st
  | button ev =>
      {| hidden := hidden st;
         invalidated := invalidated st;
         inputs := inputs st;
         api := api st;
         richTextDiv := richTextDiv st;
         editingInputs := editingInputs st;
         sets := sets st;
         focusedInput := focusedInput st;
         toolbar := handle ev (toolbar st) |}
  end.

Definition step (st : State) (a : Action) : State := update (handle a st).

Definition run (acts : list Action) (st : State) : State := foldl step st acts.

(** The input is its own object, named [rich-text], whose [focusable] is the
    negation of [hidden]; no reactive statement is pending. *)
Definition settled (st : State) : Prop :=
  invalidated st = false
  ∧ ∃ input, inputs st !! api st = Some input
      ∧ EditingInputAPI.name input = "rich-text"
      ∧ EditingInputAPI.focusable input = negb (hidden st).

(** The input that an action makes the focused one, and the input focused
    last during a history. *)
Definition focuses (st : State) (a : Action) : option nat :=
  match a with
  | domFocusin => Some (api st)
  | otherFocusin input => Some input
  | _ => None
  end.

Definition lastFocused (st : State) (acts : list Action) : option nat :=
  last (omap (focuses st) acts).

End RichText.

(** An emission reaches the subscriber only when the component has
    subscribed; the two cases are told apart wherever the handler of an
    emitting event has been unfolded. *)
Ltac case_subscribed :=
  try unfold RichTextInput.setFocus; try unfold RichTextInput.removeFocus;
  try unfold emit; simpl;
  repeat match goal with
         | |- context [if subscribed ?st then _ else _] =>
             let Hsub := fresh "Hsub" in destruct (subscribed st) eqn:Hsub; simpl
         end.

(** ** The heap under [assign_active] *)

Section heap.
Implicit Types (h : Heap) (l format : loc) (v : bool).

Lemma set_active_self (f : RemoveFormat.t) :
  RemoveFormat.set_active (RemoveFormat.active f) f = f.
Proof. by destruct f. Qed.

Lemma length_assign_active l v h : length (assign_active l v h) = length h.
Proof. apply length_alter. Qed.

Lemma lookup_assign_active l v h l' :
  assign_active l v h !! l' =
    if decide (l = l') then RemoveFormat.set_active v <$> h !! l' else h !! l'.
Proof.
  unfold assign_active. case_decide as Hl.
  - subst. apply list_lookup_alter_eq.
  - by apply list_lookup_alter_ne.
Qed.

Lemma deref_assign_active_eq l v h :
  l < length h →
  deref (assign_active l v h) l = RemoveFormat.set_active v (deref h l).
Proof. intros Hl. unfold deref, assign_active. by apply list_lookup_total_alter_eq. Qed.

Lemma deref_assign_active_ne l l' v h :
  l ≠ l' → deref (assign_active l v h) l' = deref h l'.
Proof. intros Hl. unfold deref, assign_active. by apply list_lookup_total_alter_ne. Qed.

Lemma length_clearAll formats h : length (clearAll formats h) = length h.
Proof.
  revert h. induction formats as [|l0 ls IH]; intros h; simpl; [done|].
  rewrite IH. apply length_assign_active.
Qed.

Lemma lookup_clearAll formats h l :
  clearAll formats h !! l =
    if decide (l ∈ formats) then RemoveFormat.set_active false <$> h !! l else h !! l.
Proof.
  revert h. induction formats as [|l0 ls IH]; intros h.
  { case_decide as Hin; [by apply elem_of_nil in Hin | done]. }
  change (clearAll (l0 :: ls) h) with (clearAll ls (assign_active l0 false h)).
  rewrite IH, lookup_assign_active.
  destruct (decide (l ∈ ls)) as [Hin|Hnin];
    destruct (decide (l0 = l)) as [Heq|Hne];
    destruct (decide (l ∈ l0 :: ls)) as [Hin'|Hnin'];
    try done.
  - by destruct (h !! l) as [[]|].
  - destruct Hnin'. apply elem_of_cons. by right.
  - destruct Hnin'. apply elem_of_cons. by right.
  - destruct Hnin'. apply elem_of_cons. by left.
  - apply elem_of_cons in Hin' as [?|?]; [by subst | done].
Qed.

Lemma deref_clearAll_in formats h l :
  l ∈ formats → l < length h →
  deref (clearAll formats h) l = RemoveFormat.set_active false (deref h l).
Proof.
  intros Hin Hl. unfold deref.
  destruct (lookup_lt_is_Some_2 h l Hl) as [f Hf].
  rewrite (list_lookup_total_correct h l f Hf).
  apply list_lookup_total_correct.
  by rewrite lookup_clearAll, decide_True, Hf.
Qed.

Lemma clearAll_notin formats h l : l ∉ formats → clearAll formats h !! l = h !! l.
Proof. intros Hnin. by rewrite lookup_clearAll, decide_False. Qed.

(** Two heaps that agree at [l] give the same object there. *)
Lemma deref_lookup h h' l : h' !! l = h !! l → deref h' l = deref h l.
Proof. intros Heq. unfold deref. by rewrite !list_lookup_total_alt, Heq. Qed.

Lemma flags_only_refl h : flags_only h h.
Proof.
  intros l. destruct (h !! l) as [f|] eqn:Hf.
  - exists (RemoveFormat.active f). simpl. by rewrite set_active_self.
  - by exists false.
Qed.

Lemma flags_only_trans h1 h2 h3 : flags_only h1 h2 → flags_only h2 h3 → flags_only h1 h3.
Proof.
  intros H12 H23 l. destruct (H12 l) as [v Hv], (H23 l) as [w Hw].
  exists w. rewrite Hw, Hv. by destruct (h1 !! l).
Qed.

Lemma flags_only_assign l v h : flags_only h (assign_active l v h).
Proof.
  intros l'. rewrite lookup_assign_active. case_decide; [by exists v|].
  apply flags_only_refl.
Qed.

Lemma flags_only_clearAll formats h : flags_only h (clearAll formats h).
Proof.
  intros l. rewrite lookup_clearAll. case_decide; [by exists false|].
  apply flags_only_refl.
Qed.

Lemma flags_only_length h h' : flags_only h h' → length h' = length h.
Proof.
  intros Hfl. apply Nat.le_antisymm.
  - apply Nat.nlt_ge. intros Hlt.
    destruct (Hfl (length h)) as [v Hv].
    rewrite (lookup_ge_None_2 h) in Hv by done.
    apply lookup_ge_None_1 in Hv. lia.
  - apply Nat.nlt_ge. intros Hlt.
    destruct (Hfl (length h')) as [v Hv].
    rewrite (lookup_ge_None_2 h') in Hv by done.
    destruct (lookup_lt_is_Some_2 h (length h') Hlt) as [f Hf].
    by rewrite Hf in Hv.
Qed.

Lemma flags_only_deref h h' l :
  flags_only h h' →
  RemoveFormat.key (deref h' l) = RemoveFormat.key (deref h l)
  ∧ RemoveFormat.name (deref h' l) = RemoveFormat.name (deref h l)
  ∧ RemoveFormat.show (deref h' l) = RemoveFormat.show (deref h l).
Proof.
  intros Hfl. destruct (Hfl l) as [v Hv]. unfold deref.
  rewrite !list_lookup_total_alt, Hv. by destruct (h !! l).
Qed.

End heap.

(** ** The built-in matcher *)

Lemma length_zero_empty (s : string) : (String.length s =? 0) = true ↔ s = "".
Proof. destruct s; simpl; split; done. Qed.

Lemma matcher_guard (element : Dom.Element) :
  String.eqb (Dom.tagName element) "SPAN"
    && (String.length (Dom.className element) =? 0)
    && (String.length (Dom.cssText element) =? 0) = true
  ↔ bare_span element.
Proof.
  unfold bare_span.
  rewrite !andb_true_iff, String.eqb_eq, !length_zero_empty. tauto.
Qed.

Lemma remove_changes (m : MatchType.t) : MatchType.remove m ≠ m.
Proof. destruct m as [n]. unfold MatchType.remove. simpl. intros [=]. lia. Qed.

(** C1.  The built-in matcher calls [match.remove()] (once) exactly when the
    element's tag name is [SPAN], its class name is empty and its inline
    style text is empty; on every other element it leaves the match object
    as it found it. *)
Theorem matcher_removes_exactly_bare_spans (element : Dom.Element) (m : MatchType.t) :
  (matcher element m = MatchType.remove m ↔ bare_span element)
  ∧ (matcher element m = m ↔ ¬ bare_span element)
  ∧ (matcher element m = MatchType.remove m ∨ matcher element m = m).
Proof.
  pose proof (matcher_guard element) as Hguard.
  pose proof (remove_changes m) as Hneq.
  unfold matcher.
  destruct (_ && _ && _) eqn:Hg.
  - assert (bare_span element) by by apply Hguard.
    split_and!; [tauto | split; [congruence | tauto] | by left].
  - assert (¬ bare_span element).
    { intros Hb. apply Hguard in Hb. congruence. }
    split_and!; [split; [congruence | tauto] | tauto | by right].
Qed.

(** The template element of the format is itself a bare span; a span with a
    class, a span with a style, and another tag are kept. *)
Lemma matcher_removes_exactly_bare_spans_witness :
  matcher surroundElement MatchType.fresh = MatchType.remove MatchType.fresh
  ∧ matcher {| Dom.tagName := "SPAN"; Dom.className := "cloze"; Dom.cssText := "" |}
      MatchType.fresh = MatchType.fresh
  ∧ matcher {| Dom.tagName := "SPAN"; Dom.className := ""; Dom.cssText := "color: red;" |}
      MatchType.fresh = MatchType.fresh
  ∧ matcher {| Dom.tagName := "DIV"; Dom.className := ""; Dom.cssText := "" |}
      MatchType.fresh = MatchType.fresh.
Proof.
  split_and!.
  - apply (matcher_removes_exactly_bare_spans surroundElement MatchType.fresh).
    by vm_compute.
  - apply (matcher_removes_exactly_bare_spans
             {| Dom.tagName := "SPAN"; Dom.className := "cloze"; Dom.cssText := "" |}
             MatchType.fresh).
    intros (_ & [=] & _).
  - apply (matcher_removes_exactly_bare_spans
             {| Dom.tagName := "SPAN"; Dom.className := ""; Dom.cssText := "color: red;" |}
             MatchType.fresh).
    intros (_ & _ & [=]).
  - apply (matcher_removes_exactly_bare_spans
             {| Dom.tagName := "DIV"; Dom.className := ""; Dom.cssText := "" |}
             MatchType.fresh).
    intros ([=] & _).
Defined.

(** ** States between events *)

Lemma subscribed_update (st : State) : subscribed (update st) = subscribed st.
Proof. unfold update. by destruct (dirty st). Qed.

Lemma current_update (st : State) : current st → current (update st).
Proof. unfold update. by destruct (dirty st). Qed.

Lemma current_update_dirty (st : State) : dirty st = true → current (update st).
Proof. intros Hd. unfold update. rewrite Hd. by repeat split. Qed.

Lemma heap_update (st : State) : heap (update st) = heap st.
Proof. unfold update. by destruct (dirty st). Qed.

Lemma removeFormats_update (st : State) : removeFormats (update st) = removeFormats st.
Proof. unfold update. by destruct (dirty st). Qed.

Lemma surrounder_update (st : State) : surrounder (update st) = surrounder st.
Proof. unfold update. by destruct (dirty st). Qed.

Lemma disabled_update (st : State) : disabled (update st) = disabled st.
Proof. unfold update. by destruct (dirty st). Qed.

Lemma current_step (st : State) (ev : Event) : current st → current (step st ev).
Proof.
  intros Hc. unfold step.
  destruct ev as [e|alt i| |v| |]; simpl; case_subscribed;
    try (by apply current_update_dirty);
    try (by apply current_update).
  destruct (showFormats st !! i); [by apply current_update_dirty | by apply current_update].
Qed.

Lemma valid_snoc (h : Heap) (formats : list loc) (e : RemoveFormat.t) :
  valid h formats → valid (h ++ [e]) (formats ++ [length h]).
Proof.
  intros Hv l [Hl| ->%list_elem_of_singleton]%elem_of_app;
    rewrite length_app; simpl; [apply Hv in Hl|]; lia.
Qed.

Lemma length_toggle (l : loc) (h : Heap) : length (toggle l h) = length h.
Proof. apply length_assign_active. Qed.

Lemma heap_onItemClick_length (alt : bool) (l : loc) (st : State) :
  length (heap (onItemClick alt l st)) = length (heap st).
Proof.
  simpl. rewrite length_toggle. destruct alt; [apply length_clearAll | done].
Qed.

Lemma valid_step (st : State) (ev : Event) :
  valid (heap st) (removeFormats st) →
  valid (heap (step st ev)) (removeFormats (step st ev)).
Proof.
  intros Hv. unfold step. rewrite heap_update, removeFormats_update.
  destruct ev as [e|alt i| |v| |]; simpl; case_subscribed; try done.
  - by apply valid_snoc.
  - destruct (showFormats st !! i) as [l|]; [|done].
    intros l' Hl'. rewrite heap_onItemClick_length. by apply Hv.
Qed.

Lemma settled_step (st : State) (ev : Event) : settled st → settled (step st ev).
Proof. intros [Hv Hc]. split; [by apply valid_step | by apply current_step]. Qed.

Lemma settled_run (evs : list Event) (st : State) : settled st → settled (run evs st).
Proof.
  revert st. induction evs as [|ev evs IH]; intros st Hs; [done|].
  apply IH. by apply settled_step.
Qed.

Lemma current_mount (h : Heap) (formats : list loc) (s : Surrounder.t) :
  current (mount h formats s).
Proof. by repeat split. Qed.

Lemma settled_mount (h : Heap) (formats : list loc) (s : Surrounder.t) :
  valid h formats → settled (mount h formats s).
Proof. intros Hv. split; [by apply valid_snoc | apply current_mount]. Qed.

Lemma current_run (evs : list Event) (st : State) : current st → current (run evs st).
Proof.
  revert st. induction evs as [|ev evs IH]; intros st Hs; [done|].
  apply IH. by apply current_step.
Qed.

Lemma visible_showFormats (st : State) (l : loc) :
  current st → (visible st l ↔ l ∈ showFormats st).
Proof.
  intros (_ & _ & ->). unfold visible, showFormats_of.
  rewrite list_elem_of_filter, Is_true_true. tauto.
Qed.

Lemma run_snoc (evs : list Event) (ev : Event) (st : State) :
  run (evs ++ [ev]) st = step (run evs st) ev.
Proof. unfold run. by rewrite foldl_snoc. Qed.

(** ** Clicks on a dropdown item *)

Lemma deref_toggle_eq (l : loc) (h : Heap) :
  l < length h →
  RemoveFormat.active (deref (toggle l h) l) = negb (RemoveFormat.active (deref h l)).
Proof. intros Hl. unfold toggle. by rewrite deref_assign_active_eq. Qed.

Lemma lookup_toggle_ne (l l' : loc) (h : Heap) : l ≠ l' → toggle l h !! l' = h !! l'.
Proof. intros Hne. unfold toggle. by rewrite lookup_assign_active, decide_False. Qed.

(** C2.  With the modifier held, [onItemClick] first sets [active = false]
    on every visible entry, whichever entry was clicked, and touches nothing
    else; it then flips the clicked entry from the value the first step left.
    With visible entries A (active), B (active), C (inactive), a modifier
    click on A ends in A active, B inactive, C inactive. *)
Theorem onItemClick_alt_clears_then_flips (st : State) (format : loc) :
  settled st → format < length (heap st) →
  (∀ l, visible st l →
     RemoveFormat.active (deref (clearAll (showFormats st) (heap st)) l) = false)
  ∧ (∀ l, ¬ visible st l →
     clearAll (showFormats st) (heap st) !! l = heap st !! l)
  ∧ RemoveFormat.active (deref (heap (onItemClick true format st)) format)
    = negb (RemoveFormat.active (deref (clearAll (showFormats st) (heap st)) format))
  ∧ (∀ l, l ≠ format →
     heap (onItemClick true format st) !! l
     = clearAll (showFormats st) (heap st) !! l)
  ∧ heap (onItemClick true 1
            (run [registration (entry "A" true); registration (entry "B" true);
                  registration (entry "C" false)] alone))
    = [builtin; entry "A" true; entry "B" false; entry "C" false].
Proof.
  intros [Hv Hc] Hformat. split_and!.
  - intros l Hl. pose proof Hl as [Hreg _].
    apply visible_showFormats in Hl; [|done].
    rewrite deref_clearAll_in; [done | done | by apply Hv].
  - intros l Hl. apply clearAll_notin. by rewrite <- visible_showFormats.
  - simpl. apply deref_toggle_eq. by rewrite length_clearAll.
  - intros l Hne. simpl. by apply lookup_toggle_ne.
  - reflexivity.
Qed.

Lemma onItemClick_alt_clears_then_flips_witness :
  let st := run [registration (entry "A" true); registration (entry "B" true);
                 registration (entry "C" false)] alone in
  RemoveFormat.active (deref (heap (onItemClick true 1 st)) 1)
  = negb (RemoveFormat.active (deref (clearAll (showFormats st) (heap st)) 1)).
Proof.
  intros st.
  refine (proj1 (proj2 (proj2 (onItemClick_alt_clears_then_flips st 1 _ _)))).
  - split; [|by repeat split].
    intros l Hl. vm_compute in Hl |- *.
    repeat (apply elem_of_cons in Hl as [->|Hl]; [lia|]).
    by apply elem_of_nil in Hl.
  - vm_compute. lia.
Defined.

(** C3, as stated, fails: a visible entry that was active before a modifier
    click is still active after it, not inverted. *)
Lemma onItemClick_alt_keeps_active_entry_active :
  let st := run [registration (entry "A" true)] alone in
  visible st 1
  ∧ RemoveFormat.active (deref (heap st) 1) = true
  ∧ RemoveFormat.active (deref (heap (onItemClick true 1 st)) 1)
    ≠ negb (RemoveFormat.active (deref (heap st) 1)).
Proof.
  split_and!; [|done|done].
  split; [|done]. vm_compute. apply elem_of_cons. right. apply elem_of_cons. by left.
Qed.

(** C3 (amended).  With the modifier held, a click on a visible entry leaves
    that entry active, whatever its flag was before, and every other visible
    entry inactive; entries that are not visible keep their flag. *)
Theorem onItemClick_alt_selects_only_clicked (st : State) (format : loc) :
  settled st → visible st format →
  RemoveFormat.active (deref (heap (onItemClick true format st)) format) = true
  ∧ (∀ l, visible st l → l ≠ format →
     RemoveFormat.active (deref (heap (onItemClick true format st)) l) = false)
  ∧ (∀ l, ¬ visible st l →
     deref (heap (onItemClick true format st)) l = deref (heap st) l).
Proof.
  intros [Hv Hc] Hvis.
  assert (format < length (heap st)) as Hlt by by apply Hv, Hvis.
  assert (∀ l, visible st l →
    deref (clearAll (showFormats st) (heap st)) l
    = RemoveFormat.set_active false (deref (heap st) l)) as Hclear.
  { intros l Hl. pose proof Hl as [Hreg _].
    apply visible_showFormats in Hl; [|done].
    apply deref_clearAll_in; [done | by apply Hv]. }
  split_and!.
  - simpl. rewrite deref_toggle_eq by by rewrite length_clearAll.
    by rewrite Hclear.
  - intros l Hl Hne. simpl.
    rewrite (deref_lookup (clearAll (showFormats st) (heap st)))
      by by apply lookup_toggle_ne.
    by rewrite Hclear.
  - intros l Hl. simpl.
    assert (l ≠ format) as Hne by by intros ->.
    rewrite (deref_lookup (clearAll (showFormats st) (heap st)))
      by by apply lookup_toggle_ne.
    apply deref_lookup, clearAll_notin. by rewrite <- visible_showFormats.
Qed.

Lemma onItemClick_alt_selects_only_clicked_witness :
  let st := run [registration (entry "A" true); registration (entry "B" true)] alone in
  RemoveFormat.active (deref (heap (onItemClick true 1 st)) 1) = true.
Proof.
  intros st.
  refine (proj1 (onItemClick_alt_selects_only_clicked st 1 _ _)).
  - split; [|by repeat split].
    intros l Hl. vm_compute in Hl |- *.
    repeat (apply elem_of_cons in Hl as [->|Hl]; [lia|]).
    by apply elem_of_nil in Hl.
  - split; [|done]. vm_compute. apply elem_of_cons. right. apply elem_of_cons. by left.
Defined.

(** C4.  Without the modifier, [onItemClick] flips the clicked entry's
    [active] flag and leaves every other object as it was.  With visible
    entries A (inactive) and B (active), a plain click on A ends in A active,
    B active. *)
Theorem onItemClick_plain_flips_only_clicked (st : State) (format : loc) :
  format < length (heap st) →
  RemoveFormat.active (deref (heap (onItemClick false format st)) format)
  = negb (RemoveFormat.active (deref (heap st) format))
  ∧ (∀ l, l ≠ format →
     deref (heap (onItemClick false format st)) l = deref (heap st) l)
  ∧ heap (onItemClick false 1
            (run [registration (entry "A" false); registration (entry "B" true)] alone))
    = [builtin; entry "A" true; entry "B" true].
Proof.
  intros Hlt. split_and!.
  - simpl. by apply deref_toggle_eq.
  - intros l Hne. simpl. by apply deref_lookup, lookup_toggle_ne.
  - reflexivity.
Qed.

Lemma onItemClick_plain_flips_only_clicked_witness :
  let st := run [registration (entry "A" false); registration (entry "B" true)] alone in
  RemoveFormat.active (deref (heap (onItemClick false 1 st)) 1)
  = negb (RemoveFormat.active (deref (heap st) 1)).
Proof.
  intros st.
  refine (proj1 (onItemClick_plain_flips_only_clicked st 1 _)).
  vm_compute. lia.
Defined.

(** C10.  Whatever the modifier and the clicked entry, [onItemClick] keeps
    the registry (the same references in the same order) and the number of
    objects, changes no [key], [name] or [show] field, and leaves the
    surrounder, which holds each format's [matcher] and [surroundElement],
    as it was. *)
Theorem onItemClick_changes_flags_only (st : State) (alt : bool) (format : loc) :
  removeFormats (onItemClick alt format st) = removeFormats st
  ∧ length (heap (onItemClick alt format st)) = length (heap st)
  ∧ flags_only (heap st) (heap (onItemClick alt format st))
  ∧ (∀ l,
      RemoveFormat.key (deref (heap (onItemClick alt format st)) l)
      = RemoveFormat.key (deref (heap st) l)
      ∧ RemoveFormat.name (deref (heap (onItemClick alt format st)) l)
        = RemoveFormat.name (deref (heap st) l)
      ∧ RemoveFormat.show (deref (heap (onItemClick alt format st)) l)
        = RemoveFormat.show (deref (heap st) l))
  ∧ surrounder (onItemClick alt format st) = surrounder st
  ∧ Surrounder.formats (surrounder (onItemClick alt format st))
    = Surrounder.formats (surrounder st).
Proof.
  assert (flags_only (heap st) (heap (onItemClick alt format st))) as Hfl.
  { simpl. eapply flags_only_trans; [|apply flags_only_assign].
    destruct alt; [apply flags_only_clearAll | apply flags_only_refl]. }
  split_and!; try done.
  - apply heap_onItemClick_length.
  - intros l. by apply flags_only_deref.
Qed.

(** ** The key lists *)

Lemma inactive_filter (h : Heap) (formats : list loc) :
  filter (λ l, negb (RemoveFormat.active (deref h l))) formats
  = filter (λ l, ¬ RemoveFormat.active (deref h l)) formats.
Proof. apply list_filter_iff. intros l. apply negb_True. Qed.

Lemma keys_of_sublist (h : Heap) (formats : list loc) :
  activeKeys_of h formats `sublist_of` (λ l, RemoveFormat.key (deref h l)) <$> formats
  ∧ inactiveKeys_of h formats `sublist_of` (λ l, RemoveFormat.key (deref h l)) <$> formats.
Proof. split; apply fmap_sublist, sublist_filter. Qed.

Lemma keys_of_permutation (h : Heap) (formats : list loc) :
  activeKeys_of h formats ++ inactiveKeys_of h formats
  ≡ₚ (λ l, RemoveFormat.key (deref h l)) <$> formats.
Proof.
  unfold activeKeys_of, inactiveKeys_of.
  rewrite inactive_filter, <- fmap_app. apply fmap_Permutation.
  apply filter_app_complement.
Qed.

Lemma keys_of_listed (h : Heap) (formats : list loc) (l : loc) :
  l ∈ formats →
  if RemoveFormat.active (deref h l)
  then RemoveFormat.key (deref h l) ∈ activeKeys_of h formats
  else RemoveFormat.key (deref h l) ∈ inactiveKeys_of h formats.
Proof.
  intros Hl. destruct (RemoveFormat.active (deref h l)) eqn:Ha.
  - apply (list_elem_of_fmap_2 (λ l, RemoveFormat.key (deref h l))).
    apply list_elem_of_filter. by rewrite Ha.
  - apply (list_elem_of_fmap_2 (λ l, RemoveFormat.key (deref h l))).
    apply list_elem_of_filter. by rewrite Ha.
Qed.

Lemma keys_of_disjoint (h : Heap) (formats : list loc) (k : string) :
  NoDup ((λ l, RemoveFormat.key (deref h l)) <$> formats) →
  k ∈ activeKeys_of h formats → k ∉ inactiveKeys_of h formats.
Proof.
  rewrite <- keys_of_permutation. intros (_ & Hdisj & _)%NoDup_app. apply Hdisj.
Qed.

(** The keys of the registry are distinct by its invariant, which the
    callers of the registration keep; the code does not check it.  Outside
    the invariant, a key registered twice with different flags is in both
    lists, which is why disjointness below is stated for distinct keys. *)
Lemma shared_key_in_both_lists :
  "bold" ∈ activeKeys
             (run [registration (entry "bold" true); registration (entry "bold" false)]
                  alone)
  ∧ "bold" ∈ inactiveKeys
               (run [registration (entry "bold" true); registration (entry "bold" false)]
                    alone).
Proof.
  split; vm_compute.
  - apply elem_of_cons. right. apply elem_of_cons. by left.
  - apply elem_of_cons. by left.
Qed.

(** C5.  After any sequence of registrations and clicks, every registered
    entry is listed by its flag (its key is in [activeKeys] when it is
    active, in [inactiveKeys] when it is not), the two lists are the registry
    filtered by the flag, so each is in registration order, and together
    they hold the registered keys exactly once each.  With the registered
    keys pairwise distinct, as the registry's invariant has them, the two
    lists are disjoint and each key is in exactly one of them. *)
Theorem keys_partitioned_by_flag
    (h : Heap) (formats : list loc) (s : Surrounder.t) (evs : list Event) (st : State) :
  st = run evs (mount h formats s) →
  (∀ l, l ∈ removeFormats st →
     if RemoveFormat.active (deref (heap st) l)
     then RemoveFormat.key (deref (heap st) l) ∈ activeKeys st
     else RemoveFormat.key (deref (heap st) l) ∈ inactiveKeys st)
  ∧ activeKeys st = activeKeys_of (heap st) (removeFormats st)
  ∧ inactiveKeys st = inactiveKeys_of (heap st) (removeFormats st)
  ∧ activeKeys st `sublist_of` keys st
  ∧ inactiveKeys st `sublist_of` keys st
  ∧ activeKeys st ++ inactiveKeys st ≡ₚ keys st
  ∧ (NoDup (keys st) →
     (∀ k, k ∈ activeKeys st → k ∉ inactiveKeys st)
     ∧ (∀ l, l ∈ removeFormats st →
          if RemoveFormat.active (deref (heap st) l)
          then RemoveFormat.key (deref (heap st) l) ∉ inactiveKeys st
          else RemoveFormat.key (deref (heap st) l) ∉ activeKeys st)).
Proof.
  intros ->. set (st := run evs (mount h formats s)).
  assert (current st) as (Ha & Hi & Hs) by apply current_run, current_mount.
  rewrite Ha, Hi. unfold keys.
  split_and!; try done.
  - apply keys_of_listed.
  - apply keys_of_sublist.
  - apply keys_of_sublist.
  - apply keys_of_permutation.
  - intros Hnd. split; [intros k; by apply keys_of_disjoint|].
    intros l Hl. pose proof (keys_of_listed (heap st) _ l Hl) as Hlisted.
    destruct (RemoveFormat.active (deref (heap st) l)).
    + by apply keys_of_disjoint.
    + intros Hin. by apply (keys_of_disjoint _ _ _ Hnd Hin).
Qed.

Lemma keys_partitioned_by_flag_witness :
  "italic" ∉ inactiveKeys (run [registration (entry "bold" true);
                                registration (entry "italic" false);
                                itemClick false 1] alone).
Proof.
  refine (proj1 (proj2 (proj2 (proj2 (proj2 (proj2 (proj2
    (keys_partitioned_by_flag [] [] Surrounder.make
       [registration (entry "bold" true); registration (entry "italic" false);
        itemClick false 1] _ eq_refl)))))) _) "italic" _).
  - by apply (bool_decide_unpack _).
  - by apply (bool_decide_unpack _).
Defined.

(** ** Removal *)

(** C6, as stated, fails: [remove()] passes the reactive variables, and a
    removal that runs right after a click, before the reactive declarations
    have run again, passes the lists of the state before the click and not
    those of the registry as it is. *)
Lemma remove_before_flush_passes_stale_keys :
  Surrounder.removed
    (surrounder (remove (onItemClick false 1
                           (run [registration (entry "bold" false)] alone))))
  = [(["simple spans"], ["bold"])]
  ∧ activeKeys_of
      (heap (onItemClick false 1 (run [registration (entry "bold" false)] alone)))
      (removeFormats (onItemClick false 1 (run [registration (entry "bold" false)] alone)))
    = ["simple spans"; "bold"]
  ∧ inactiveKeys_of
      (heap (onItemClick false 1 (run [registration (entry "bold" false)] alone)))
      (removeFormats (onItemClick false 1 (run [registration (entry "bold" false)] alone)))
    = [].
Proof. done. Qed.

(** C6 (amended).  Between two events, that is once the reactive
    declarations have run after the last registration or click, [remove()]
    hands the surrounder the two key lists of the registry as it is when
    [remove()] runs: whatever registrations and clicks came before, the call
    carries the active keys and the inactive keys computed from the present
    heap and registry, so an entry registered inactive and clicked before the
    removal is passed as active.  A removal that runs right after a click,
    before the reactive declarations, passes the lists of the state before
    the click. *)
Theorem remove_passes_current_keys
    (h : Heap) (formats : list loc) (s : Surrounder.t) (evs : list Event) (st : State) :
  st = run evs (mount h formats s) →
  Surrounder.removed (surrounder (remove st))
  = Surrounder.removed (surrounder st)
    ++ [(activeKeys_of (heap st) (removeFormats st),
         inactiveKeys_of (heap st) (removeFormats st))]
  ∧ Surrounder.removed (surrounder (step st removeAction))
    = Surrounder.removed (surrounder st)
      ++ [(activeKeys_of (heap st) (removeFormats st),
           inactiveKeys_of (heap st) (removeFormats st))]
  ∧ (activeKeys (run [registration (entry "bold" false)] alone),
     inactiveKeys (run [registration (entry "bold" false)] alone))
    = (["simple spans"], ["bold"])
  ∧ Surrounder.removed
      (surrounder (run [registration (entry "bold" false); itemClick false 0;
                        removeAction] alone))
    = [(["simple spans"; "bold"], [])]
  ∧ (∀ alt l,
       Surrounder.removed (surrounder (remove (onItemClick alt l st)))
       = Surrounder.removed (surrounder st)
         ++ [(activeKeys_of (heap st) (removeFormats st),
              inactiveKeys_of (heap st) (removeFormats st))]).
Proof.
  intros ->. set (st := run evs (mount h formats s)).
  assert (current st) as (Ha & Hi & Hs) by apply current_run, current_mount.
  split_and!; [| |done|done|].
  - simpl. by rewrite Ha, Hi.
  - unfold step. rewrite surrounder_update. simpl. by rewrite Ha, Hi.
  - intros alt l. simpl. by rewrite Ha, Hi.
Qed.

(** The flush between two events is what keeps the lists current: inside
    the handler, right after the click and before the reactive declarations
    have run, the variables still hold the lists of the state before. *)
Lemma keys_stale_until_update :
  activeKeys (onItemClick false 1 (run [registration (entry "bold" false)] alone))
  = ["simple spans"]
  ∧ activeKeys (update (onItemClick false 1 (run [registration (entry "bold" false)] alone)))
    = ["simple spans"; "bold"].
Proof. done. Qed.

Lemma remove_passes_current_keys_witness :
  Surrounder.removed
    (surrounder (remove (run [registration (entry "bold" false); itemClick true 0] alone)))
  = [(["simple spans"; "bold"], [])].
Proof.
  exact (proj1 (remove_passes_current_keys [] [] Surrounder.make
                  [registration (entry "bold" false); itemClick true 0] _ eq_refl)).
Defined.

(** ** The built-in entry *)

(** C7.  A new instance appends one object, the entry with key and name
    [simple spans], [show = false] and [active = true], to the heap and one
    reference to it to the registry; the objects and references that were
    there stay as they were, in order.  On a registry that was empty the
    active keys are then [simple spans] alone and there are no inactive
    keys. *)
Theorem instance_appends_builtin (h : Heap) (formats : list loc) (s : Surrounder.t) :
  heap (instance h formats s) = h ++ [builtin]
  ∧ removeFormats (instance h formats s) = formats ++ [length h]
  ∧ deref (heap (instance h formats s)) (length h) = builtin
  ∧ builtin = {| RemoveFormat.name := "simple spans";
                 RemoveFormat.key := "simple spans";
                 RemoveFormat.show := false;
                 RemoveFormat.active := true |}
  ∧ activeKeys (instance h [] s) = ["simple spans"]
  ∧ inactiveKeys (instance h [] s) = [].
Proof.
  assert (deref (h ++ [builtin]) (length h) = builtin) as Hb.
  { unfold deref. by apply list_lookup_total_middle. }
  split_and!; try done.
  - simpl. unfold activeKeys_of. simpl.
    rewrite filter_cons_True by by rewrite Hb.
    simpl. by rewrite Hb.
  - simpl. unfold inactiveKeys_of. simpl.
    rewrite filter_cons_False; [done|]. rewrite Hb. by intros [].
Qed.

Lemma builtin_not_shown (b : loc) (st : State) :
  builtin_kept b st → b ∉ showFormats st.
Proof.
  intros [(_ & _ & ->) Hb] [Hshow _]%list_elem_of_filter.
  unfold deref in Hshow. by rewrite (list_lookup_total_correct _ _ _ Hb) in Hshow.
Qed.

Lemma builtin_kept_step (b : loc) (st : State) (ev : Event) :
  builtin_kept b st → builtin_kept b (step st ev).
Proof.
  intros Hk. pose proof (builtin_not_shown b st Hk) as Hns. destruct Hk as [Hc Hb].
  split; [by apply current_step|].
  unfold step. rewrite heap_update.
  destruct ev as [e|alt i| |v| |]; simpl; case_subscribed; try done.
  - by apply lookup_app_l_Some.
  - destruct (showFormats st !! i) as [l|] eqn:Hi; [|done].
    assert (l ≠ b) as Hne.
    { intros ->. by apply Hns, list_elem_of_lookup_2 with i. }
    simpl. rewrite lookup_toggle_ne by done.
    destruct alt; [by rewrite clearAll_notin | done].
Qed.

Lemma builtin_kept_run (b : loc) (evs : list Event) (st : State) :
  builtin_kept b st → builtin_kept b (run evs st).
Proof.
  revert st. induction evs as [|ev evs IH]; intros st Hk; [done|].
  apply IH. by apply builtin_kept_step.
Qed.

Lemma builtin_kept_mount (h : Heap) (formats : list loc) (s : Surrounder.t) :
  builtin_kept (length h) (mount h formats s).
Proof. split; [apply current_mount|]. simpl. by apply list_lookup_middle. Qed.

Lemma builtin_active_after (h : Heap) (formats : list loc) (s : Surrounder.t)
    (evs : list Event) :
  RemoveFormat.active (deref (heap (run evs (mount h formats s))) (length h)) = true.
Proof.
  destruct (builtin_kept_run (length h) evs _ (builtin_kept_mount h formats s)) as [_ Hb].
  unfold deref. by rewrite (list_lookup_total_correct _ _ _ Hb).
Qed.

(** C8, as stated, fails: no click with the modifier held, after any
    history, leaves the built-in entry inactive. *)
Lemma no_alt_click_deactivates_builtin :
  ¬ ∃ (h : Heap) (formats : list loc) (s : Surrounder.t) (evs : list Event) (i : nat),
      RemoveFormat.active
        (deref (heap (step (run evs (mount h formats s)) (itemClick true i))) (length h))
      = false.
Proof.
  intros (h & formats & s & evs & i & Hfalse).
  rewrite <- run_snoc, builtin_active_after in Hfalse. done.
Qed.

(** C8 (amended).  The built-in entry is never an item of the dropdown, and
    no sequence of registrations, clicks with or without the modifier,
    removals and emissions changes it: it stays active.  The modifier click
    clears visible entries only. *)
Theorem builtin_stays_active
    (h : Heap) (formats : list loc) (s : Surrounder.t) (evs : list Event) :
  (length h ∉ showFormats (run evs (mount h formats s)))
  ∧ heap (run evs (mount h formats s)) !! length h = Some builtin
  ∧ RemoveFormat.active (deref (heap (run evs (mount h formats s))) (length h)) = true
  ∧ (∀ alt i,
       RemoveFormat.active
         (deref (heap (step (run evs (mount h formats s)) (itemClick alt i))) (length h))
       = true)
  ∧ (clearAll (showFormats (run evs (mount h formats s)))
              (heap (run evs (mount h formats s)))) !! length h
    = Some builtin.
Proof.
  pose proof (builtin_kept_run (length h) evs _ (builtin_kept_mount h formats s)) as Hk.
  pose proof (builtin_not_shown _ _ Hk) as Hns.
  split_and!; [done | apply Hk | apply builtin_active_after | |].
  - intros alt i. rewrite <- run_snoc. apply builtin_active_after.
  - rewrite clearAll_notin by done. apply Hk.
Qed.

(** ** The disabled flag *)

Lemma handle_silent (ev : Event) (st : State) :
  emitted ev = None →
  disabled (handle ev st) = disabled st
  ∧ Surrounder.active (surrounder (handle ev st)) = Surrounder.active (surrounder st).
Proof.
  destruct ev as [e|alt i| |v| |]; simpl; case_subscribed; try done.
  by destruct (showFormats st !! i).
Qed.

Lemma handle_emitting (ev : Event) (st : State) (v : bool) :
  subscribed st = true →
  emitted ev = Some v →
  disabled (handle ev st) = Some (negb v)
  ∧ Surrounder.active (surrounder (handle ev st)) = v.
Proof.
  intros Hsub.
  destruct ev as [e|alt i| |w| |]; simpl; intros [= <-];
    unfold RichTextInput.setFocus, RichTextInput.removeFocus, emit; simpl;
    by rewrite Hsub.
Qed.

Lemma subscribed_handle (ev : Event) (st : State) :
  subscribed (handle ev st) = subscribed st.
Proof.
  destruct ev as [e|alt i| |v| |]; simpl; case_subscribed; try done.
  by destruct (showFormats st !! i).
Qed.

Lemma subscribed_step (st : State) (ev : Event) : subscribed (step st ev) = subscribed st.
Proof. unfold step. by rewrite subscribed_update, subscribed_handle. Qed.

Lemma subscribed_run (evs : list Event) (st : State) :
  subscribed (run evs st) = subscribed st.
Proof.
  revert st. induction evs as [|ev evs IH]; intros st; [done|].
  change (run (ev :: evs) st) with (run evs (step st ev)).
  by rewrite IH, subscribed_step.
Qed.

Lemma subscribed_mount (h : Heap) (formats : list loc) (s : Surrounder.t) :
  subscribed (mount h formats s) = true.
Proof. done. Qed.

Lemma latest_snoc (evs : list Event) (ev : Event) :
  latest (evs ++ [ev]) = match emitted ev with Some v => Some v | None => latest evs end.
Proof.
  unfold latest. rewrite omap_app. simpl.
  destruct (emitted ev); [apply last_snoc | by rewrite app_nil_r].
Qed.

Lemma disabled_after_emission (st : State) (evs : list Event) (v : bool) :
  subscribed st = true → latest evs = Some v →
  disabled (run evs st) = Some (negb v)
  ∧ Surrounder.active (surrounder (run evs st)) = v.
Proof.
  intros Hsub. revert v.
  induction evs as [|ev evs IH] using rev_ind; intros v Hlatest; [done|].
  rewrite latest_snoc in Hlatest. rewrite run_snoc. unfold step.
  rewrite disabled_update, surrounder_update.
  destruct (emitted ev) as [w|] eqn:Hev.
  - injection Hlatest as ->. apply handle_emitting; [|done].
    by rewrite subscribed_run.
  - destruct (handle_silent ev (run evs st) Hev) as [-> ->]. by apply IH.
Qed.

(** Before [onMount] the component has not subscribed: an emission changes
    the store and leaves [disabled] without a value. *)
Lemma emission_before_mount_unheard (h : Heap) (formats : list loc) (s : Surrounder.t)
    (v : bool) :
  disabled (step (instance h formats s) (emission v)) = None
  ∧ Surrounder.active (surrounder (step (instance h formats s) (emission v))) = v.
Proof. unfold step. by rewrite disabled_update, surrounder_update. Qed.

(** C9.  For a mounted button, whatever happened since it was mounted: once
    the surrounder's [active] store has emitted, [disabled] is the negation
    of the value emitted last, which is the value the store holds.  The flag
    is set exactly when the surrounder reports no enabled input, and nothing
    of the earlier history matters.  Gaining focus enables the button and
    losing focus disables it. *)
Theorem disabled_mirrors_latest_emission
    (h : Heap) (formats : list loc) (s : Surrounder.t)
    (before evs : list Event) (v : bool) :
  latest evs = Some v →
  disabled (run evs (run before (mount h formats s))) = Some (negb v)
  ∧ Surrounder.active (surrounder (run evs (run before (mount h formats s)))) = v
  ∧ (disabled (run evs (run before (mount h formats s))) = Some true ↔ v = false)
  ∧ disabled (step (run before (mount h formats s)) focusin) = Some false
  ∧ disabled (step (run before (mount h formats s)) focusout) = Some true.
Proof.
  intros Hlatest.
  assert (subscribed (run before (mount h formats s)) = true) as Hsub.
  { by rewrite subscribed_run. }
  destruct (disabled_after_emission _ evs v Hsub Hlatest) as [Hd Ha].
  split_and!; try done.
  - rewrite Hd. destruct v; split; intros [=]; done.
  - by apply (disabled_after_emission _ [focusin] true Hsub).
  - by apply (disabled_after_emission _ [focusout] false Hsub).
Qed.

Lemma disabled_mirrors_latest_emission_witness :
  disabled (run [focusin; itemClick false 0; emission false; removeAction]
              (run [registration (entry "bold" false); emission true]
                 (mount [] [] Surrounder.make)))
  = Some true.
Proof.
  exact (proj1 (disabled_mirrors_latest_emission [] [] Surrounder.make
                  [registration (entry "bold" false); emission true]
                  [focusin; itemClick false 0; emission false; removeAction]
                  false eq_refl)).
Defined.

(** ** Views under changes of the heap *)

Lemma filter_ext_in {A : Type} (P Q : A → Prop)
    `{!∀ x, Decision (P x), !∀ x, Decision (Q x)} (l : list A) :
  (∀ x, x ∈ l → (P x ↔ Q x)) → filter P l = filter Q l.
Proof.
  induction l as [|x l IH]; intros Hext; [done|].
  assert (filter P l = filter Q l) as Hl.
  { apply IH. intros y Hy. apply Hext, elem_of_cons. by right. }
  assert (P x ↔ Q x) as Hx.
  { apply Hext, elem_of_cons. by left. }
  destruct (decide (P x)) as [HP|HP].
  - rewrite !filter_cons_True by tauto. by rewrite Hl.
  - rewrite !filter_cons_False by tauto. done.
Qed.

Lemma fmap_ext_in {A B : Type} (f g : A → B) (l : list A) :
  (∀ x, x ∈ l → f x = g x) → f <$> l = g <$> l.
Proof.
  induction l as [|x l IH]; intros Hext; [done|]. simpl.
  rewrite (Hext x) by (apply elem_of_cons; by left).
  f_equal. apply IH. intros y Hy. apply Hext, elem_of_cons. by right.
Qed.

(** The three views read the heap only at the references of the registry. *)
Lemma views_ext (h h' : Heap) (formats : list loc) :
  (∀ l, l ∈ formats → deref h' l = deref h l) →
  activeKeys_of h' formats = activeKeys_of h formats
  ∧ inactiveKeys_of h' formats = inactiveKeys_of h formats
  ∧ showFormats_of h' formats = showFormats_of h formats.
Proof.
  intros Hext. unfold activeKeys_of, inactiveKeys_of, showFormats_of. split_and!.
  - rewrite (filter_ext_in _ (λ l, RemoveFormat.active (deref h l)))
      by (intros l Hl; by rewrite Hext).
    apply fmap_ext_in. intros l [_ Hl]%list_elem_of_filter. by rewrite Hext.
  - rewrite (filter_ext_in _ (λ l, negb (RemoveFormat.active (deref h l))))
      by (intros l Hl; by rewrite Hext).
    apply fmap_ext_in. intros l [_ Hl]%list_elem_of_filter. by rewrite Hext.
  - apply filter_ext_in. intros l Hl. by rewrite Hext.
Qed.

Lemma showFormats_of_flags_only (h h' : Heap) (formats : list loc) :
  flags_only h h' → showFormats_of h' formats = showFormats_of h formats.
Proof.
  intros Hfl. apply filter_ext_in. intros l _.
  by destruct (flags_only_deref h h' l Hfl) as (_ & _ & ->).
Qed.

Lemma deref_snoc_old (h : Heap) (e : RemoveFormat.t) (l : loc) :
  l < length h → deref (h ++ [e]) l = deref h l.
Proof. intros Hl. unfold deref. by apply lookup_total_app_l. Qed.

Lemma deref_snoc_new (h : Heap) (e : RemoveFormat.t) : deref (h ++ [e]) (length h) = e.
Proof. unfold deref. by apply list_lookup_total_middle. Qed.

Lemma flags_only_onItemClick (alt : bool) (l : loc) (st : State) :
  flags_only (heap st) (heap (onItemClick alt l st)).
Proof.
  simpl. eapply flags_only_trans; [|apply flags_only_assign].
  destruct alt; [apply flags_only_clearAll | apply flags_only_refl].
Qed.

Lemma step_views (st : State) (ev : Event) :
  current st →
  activeKeys (step st ev) = activeKeys_of (heap (step st ev)) (removeFormats (step st ev))
  ∧ inactiveKeys (step st ev)
    = inactiveKeys_of (heap (step st ev)) (removeFormats (step st ev))
  ∧ showFormats (step st ev)
    = showFormats_of (heap (step st ev)) (removeFormats (step st ev)).
Proof. intros Hc. by apply current_step. Qed.

Lemma views_registration (h : Heap) (formats : list loc) (e : RemoveFormat.t) :
  valid h formats →
  activeKeys_of (h ++ [e]) (formats ++ [length h])
  = activeKeys_of h formats ++ added (RemoveFormat.active e) (RemoveFormat.key e)
  ∧ inactiveKeys_of (h ++ [e]) (formats ++ [length h])
    = inactiveKeys_of h formats
      ++ added (negb (RemoveFormat.active e)) (RemoveFormat.key e)
  ∧ showFormats_of (h ++ [e]) (formats ++ [length h])
    = showFormats_of h formats ++ added (RemoveFormat.show e) (length h).
Proof.
  intros Hv.
  destruct (views_ext h (h ++ [e]) formats) as (Ha & Hi & Hs).
  { intros l Hl. apply deref_snoc_old. by apply Hv. }
  pose proof (deref_snoc_new h e) as Hnew.
  rewrite <- Ha, <- Hi, <- Hs.
  unfold activeKeys_of, inactiveKeys_of, showFormats_of.
  rewrite !filter_app, !fmap_app. split_and!; f_equal.
  - destruct (RemoveFormat.active e) eqn:He.
    + rewrite filter_cons_True by (cbn beta; by rewrite Hnew, He). simpl. by rewrite Hnew.
    + rewrite filter_cons_False; [done|]. rewrite Hnew, He. by intros [].
  - destruct (RemoveFormat.active e) eqn:He.
    + rewrite filter_cons_False; [done|]. rewrite Hnew, He. by intros [].
    + rewrite filter_cons_True by (cbn beta; by rewrite Hnew, He). simpl. by rewrite Hnew.
  - destruct (RemoveFormat.show e) eqn:He.
    + rewrite filter_cons_True by (cbn beta; by rewrite Hnew, He). done.
    + rewrite filter_cons_False; [done|]. rewrite Hnew, He. by intros [].
Qed.

(** X1.  Registering an entry appends one object and one reference; its key
    goes to the end of the key list of its flag and the other key list is
    unchanged; it becomes the last item of the dropdown when [show] is set
    and no item otherwise. *)
Theorem registration_appends_key (st : State) (e : RemoveFormat.t) :
  settled st →
  activeKeys (step st (registration e))
  = activeKeys st ++ added (RemoveFormat.active e) (RemoveFormat.key e)
  ∧ inactiveKeys (step st (registration e))
    = inactiveKeys st ++ added (negb (RemoveFormat.active e)) (RemoveFormat.key e)
  ∧ showFormats (step st (registration e))
    = showFormats st ++ added (RemoveFormat.show e) (length (heap st))
  ∧ heap (step st (registration e)) = heap st ++ [e]
  ∧ removeFormats (step st (registration e)) = removeFormats st ++ [length (heap st)].
Proof.
  intros [Hv (Ha & Hi & Hs)].
  destruct (views_registration (heap st) (removeFormats st) e Hv) as (Ha' & Hi' & Hs').
  rewrite Ha, Hi, Hs. unfold step, update. simpl. by split_and!.
Qed.

Lemma registration_appends_key_witness :
  activeKeys (step alone (registration (entry "bold" false))) = ["simple spans"]
  ∧ inactiveKeys (step alone (registration (entry "bold" false))) = ["bold"]
  ∧ showFormats (step alone (registration (entry "bold" false))) = [1].
Proof.
  destruct (registration_appends_key alone (entry "bold" false)) as (Ha & Hi & Hs & _).
  - split; [|by repeat split].
    intros l Hl. vm_compute in Hl |- *.
    repeat (apply elem_of_cons in Hl as [->|Hl]; [lia|]).
    by apply elem_of_nil in Hl.
  - rewrite Ha, Hi, Hs. done.
Defined.

(** ** The dropdown *)

Lemma showFormats_step (st : State) (ev : Event) :
  settled st →
  showFormats (step st ev)
  = showFormats st
    ++ match ev with
       | registration e => added (RemoveFormat.show e) (length (heap st))
       | _ => []
       end.
Proof.
  intros Hs. pose proof Hs as [Hv Hc].
  destruct ev as [e|alt i| |v| |].
  - destruct Hc as (_ & _ & ->). unfold step, update. simpl.
    by apply views_registration.
  - rewrite app_nil_r.
    destruct (step_views st (itemClick alt i) Hc) as (_ & _ & ->).
    destruct Hc as (_ & _ & ->).
    unfold step. rewrite heap_update, removeFormats_update. simpl.
    destruct (showFormats st !! i) as [l|]; [|done].
    apply showFormats_of_flags_only, flags_only_onItemClick.
  - rewrite app_nil_r.
    destruct (step_views st removeAction Hc) as (_ & _ & ->).
    destruct Hc as (_ & _ & ->).
    unfold step. rewrite heap_update, removeFormats_update. simpl. by case_subscribed.
  - rewrite app_nil_r.
    destruct (step_views st (emission v) Hc) as (_ & _ & ->).
    destruct Hc as (_ & _ & ->).
    unfold step. rewrite heap_update, removeFormats_update. simpl. by case_subscribed.
  - rewrite app_nil_r.
    destruct (step_views st focusin Hc) as (_ & _ & ->).
    destruct Hc as (_ & _ & ->).
    unfold step. rewrite heap_update, removeFormats_update. simpl. by case_subscribed.
  - rewrite app_nil_r.
    destruct (step_views st focusout Hc) as (_ & _ & ->).
    destruct Hc as (_ & _ & ->).
    unfold step. rewrite heap_update, removeFormats_update. simpl. by case_subscribed.
Qed.

Lemma registrations_cons (ev : Event) (evs : list Event) :
  registrations (ev :: evs) = (if is_registration ev then 1 else 0) + registrations evs.
Proof.
  unfold registrations. destruct (is_registration ev) eqn:He.
  - by rewrite filter_cons_True by by rewrite He.
  - rewrite filter_cons_False; [done|]. rewrite He. by intros [].
Qed.

Lemma removals_cons (ev : Event) (evs : list Event) :
  removals (ev :: evs) = (if is_removal ev then 1 else 0) + removals evs.
Proof.
  unfold removals. destruct (is_removal ev) eqn:He.
  - by rewrite filter_cons_True by by rewrite He.
  - rewrite filter_cons_False; [done|]. rewrite He. by intros [].
Qed.

Lemma showFormats_run (evs : list Event) (st : State) :
  settled st →
  showFormats st `prefix_of` showFormats (run evs st)
  ∧ length (showFormats (run evs st)) ≤ length (showFormats st) + registrations evs.
Proof.
  revert st. induction evs as [|ev evs IH]; intros st Hs.
  { split; [done | simpl; lia]. }
  destruct (IH (step st ev) (settled_step st ev Hs)) as [Hpre Hlen].
  change (run (ev :: evs) st) with (run evs (step st ev)).
  rewrite showFormats_step in Hpre, Hlen by done.
  rewrite registrations_cons. split.
  - etrans; [|exact Hpre]. by apply prefix_app_r.
  - etrans; [exact Hlen|]. rewrite length_app.
    destruct ev as [e| | | | |]; simpl; try lia.
    destruct (RemoveFormat.show e); simpl; lia.
Qed.

(** X2.  The dropdown only grows: after any history the items it had are
    still there at the same positions, a click on an item (with or without
    the modifier) leaves the list of items as it is, and there are at most as
    many new items as there were registrations. *)
Theorem dropdown_only_grows (st : State) (evs : list Event) :
  settled st →
  showFormats st `prefix_of` showFormats (run evs st)
  ∧ (∀ i l, showFormats st !! i = Some l → showFormats (run evs st) !! i = Some l)
  ∧ length (showFormats (run evs st)) ≤ length (showFormats st) + registrations evs
  ∧ (∀ alt i,
       showFormats (step (run evs st) (itemClick alt i)) = showFormats (run evs st)).
Proof.
  intros Hs. destruct (showFormats_run evs st Hs) as [Hpre Hlen].
  split_and!; [done| |done|].
  - intros i l Hi. by apply (prefix_lookup_Some (showFormats st)).
  - intros alt i. rewrite showFormats_step by by apply settled_run.
    apply app_nil_r.
Qed.

Lemma dropdown_only_grows_witness :
  showFormats (run [registration (entry "bold" false); itemClick true 0; removeAction;
                    registration (entry "italic" true)] alone) !! 0
  = Some 1.
Proof.
  refine (proj1 (proj2 (dropdown_only_grows
            (step alone (registration (entry "bold" false)))
            [itemClick true 0; removeAction; registration (entry "italic" true)] _))
          0 1 eq_refl).
  split; [|by repeat split].
  intros l Hl. vm_compute in Hl |- *.
  repeat (apply elem_of_cons in Hl as [->|Hl]; [lia|]).
  by apply elem_of_nil in Hl.
Defined.

(** ** Clicking twice *)

Lemma toggle_toggle (l : loc) (h : Heap) : toggle l (toggle l h) = h.
Proof.
  apply list_eq. intros l'. unfold toggle at 1. rewrite lookup_assign_active.
  case_decide as Hl; [subst l'|by apply lookup_toggle_ne].
  destruct (h !! l) as [f|] eqn:Hf.
  - assert (l < length h) as Hlt by by eapply lookup_lt_Some.
    assert (deref h l = f) as Hd by by apply list_lookup_total_correct.
    unfold toggle at 2. rewrite deref_toggle_eq by done.
    unfold toggle. rewrite lookup_assign_active, decide_True, Hf, Hd by done.
    simpl. rewrite negb_involutive. by destruct f.
  - unfold toggle. by rewrite lookup_assign_active, decide_True, Hf.
Qed.

Lemma state_eq (st st' : State) :
  heap st = heap st' → removeFormats st = removeFormats st' →
  surrounder st = surrounder st' → dirty st = dirty st' →
  activeKeys st = activeKeys st' → inactiveKeys st = inactiveKeys st' →
  showFormats st = showFormats st' → disabled st = disabled st' →
  subscribed st = subscribed st' →
  st = st'.
Proof. destruct st, st'. simpl. by intros -> -> -> -> -> -> -> -> ->. Qed.

Lemma views_flags_only_show (st : State) (alt : bool) (l : loc) :
  current st →
  showFormats (update (onItemClick alt l st)) = showFormats st.
Proof.
  intros (_ & _ & Hs). unfold update. simpl.
  transitivity (showFormats_of (heap st) (removeFormats st)); [|done].
  apply (showFormats_of_flags_only _ _ _ (flags_only_onItemClick alt l st)).
Qed.

Lemma step_itemClick (st : State) (alt : bool) (i : nat) (l : loc) :
  showFormats st !! i = Some l →
  step st (itemClick alt i) = update (onItemClick alt l st).
Proof. intros Hl. unfold step. simpl. by rewrite Hl. Qed.

Lemma step_itemClick_none (st : State) (alt : bool) (i : nat) :
  showFormats st !! i = None → step st (itemClick alt i) = update st.
Proof. intros Hl. unfold step. simpl. by rewrite Hl. Qed.

(** X3.  Between two events, a second plain click on the same item undoes the
    first: the whole state, flags and key lists included, is what it was. *)
Theorem plain_click_twice_restores (st : State) (i : nat) :
  current st → dirty st = false →
  step (step st (itemClick false i)) (itemClick false i) = st.
Proof.
  intros Hc Hd. pose proof Hc as (Ha & Hi & Hs).
  assert (update st = st) as Hu by (unfold update; by rewrite Hd).
  destruct (showFormats st !! i) as [l|] eqn:Hl.
  - rewrite (step_itemClick st false i l Hl).
    set (st1 := update (onItemClick false l st)).
    assert (showFormats st1 !! i = Some l) as Hl1.
    { unfold st1. by rewrite views_flags_only_show. }
    assert (heap st1 = toggle l (heap st)) as Hh1.
    { unfold st1. by rewrite heap_update. }
    assert (removeFormats st1 = removeFormats st) as Hr1.
    { unfold st1. by rewrite removeFormats_update. }
    assert (surrounder st1 = surrounder st) as Hsu1.
    { unfold st1. by rewrite surrounder_update. }
    assert (disabled st1 = disabled st) as Hdi1.
    { unfold st1. by rewrite disabled_update. }
    assert (subscribed st1 = subscribed st) as Hsb1.
    { unfold st1. by rewrite subscribed_update. }
    clearbody st1.
    rewrite (step_itemClick st1 false i l Hl1).
    assert (heap (update (onItemClick false l st1)) = heap st) as Hh2.
    { rewrite heap_update. simpl. by rewrite Hh1, toggle_toggle. }
    assert (removeFormats (update (onItemClick false l st1)) = removeFormats st) as Hr2.
    { by rewrite removeFormats_update. }
    destruct (current_update_dirty (onItemClick false l st1) eq_refl) as (Ha2 & Hi2 & Hs2).
    apply state_eq.
    + done.
    + done.
    + by rewrite surrounder_update.
    + by rewrite Hd.
    + by rewrite Ha2, Hh2, Hr2.
    + by rewrite Hi2, Hh2, Hr2.
    + by rewrite Hs2, Hh2, Hr2.
    + by rewrite disabled_update.
    + by rewrite subscribed_update.
  - by rewrite !(step_itemClick_none st false i Hl), !Hu, (step_itemClick_none st false i Hl).
Qed.

Lemma plain_click_twice_restores_witness :
  step (step (run [registration (entry "bold" false)] alone) (itemClick false 0))
       (itemClick false 0)
  = run [registration (entry "bold" false)] alone.
Proof.
  apply (plain_click_twice_restores (run [registration (entry "bold" false)] alone) 0).
  - by repeat split.
  - reflexivity.
Defined.

(** ** The modifier click as a selection *)

Lemma lookup_alt_click (shown : list loc) (l : loc) (h : Heap) (l' : loc) :
  l ∈ shown → l < length h →
  toggle l (clearAll shown h) !! l' =
    if decide (l' = l) then RemoveFormat.set_active true <$> h !! l'
    else if decide (l' ∈ shown) then RemoveFormat.set_active false <$> h !! l'
    else h !! l'.
Proof.
  intros Hin Hlt. unfold toggle. rewrite lookup_assign_active.
  destruct (decide (l = l')) as [Heq|Hne].
  - subst l'. rewrite decide_True by done.
    rewrite deref_clearAll_in by done. simpl.
    rewrite lookup_clearAll, decide_True by done.
    by destruct (h !! l) as [[]|].
  - rewrite decide_False by done. apply lookup_clearAll.
Qed.

Lemma deref_alt_click (shown : list loc) (l : loc) (h : Heap) (l' : loc) :
  l ∈ shown → l < length h → l' < length h →
  deref (toggle l (clearAll shown h)) l' =
    if decide (l' = l) then RemoveFormat.set_active true (deref h l')
    else if decide (l' ∈ shown) then RemoveFormat.set_active false (deref h l')
    else deref h l'.
Proof.
  intros Hin Hlt Hlt'.
  destruct (lookup_lt_is_Some_2 h l' Hlt') as [f Hf].
  unfold deref. rewrite (list_lookup_total_correct h l' f Hf).
  apply list_lookup_total_correct.
  rewrite lookup_alt_click, Hf by done.
  by repeat case_decide.
Qed.

Lemma alt_click_again (shown : list loc) (l : loc) (h : Heap) :
  l ∈ shown → l < length h →
  toggle l (clearAll shown (toggle l (clearAll shown h))) = toggle l (clearAll shown h).
Proof.
  intros Hin Hlt. apply list_eq. intros l'.
  rewrite (lookup_alt_click shown l (toggle l (clearAll shown h)))
    by (by rewrite ?length_toggle, ?length_clearAll).
  rewrite lookup_alt_click by done.
  repeat case_decide; by destruct (h !! l') as [[]|].
Qed.

Lemma showFormats_valid (st : State) (i : nat) (l : loc) :
  settled st → showFormats st !! i = Some l →
  l ∈ showFormats st ∧ l ∈ removeFormats st ∧ l < length (heap st)
  ∧ RemoveFormat.show (deref (heap st) l) = true.
Proof.
  intros [Hv Hc] Hi.
  assert (l ∈ showFormats st) as Hin by by eapply list_elem_of_lookup_2.
  pose proof Hin as [Hreg Hshow]%visible_showFormats; [|done].
  split_and!; try done. by apply Hv.
Qed.

Lemma update_update (st : State) : update (update st) = update st.
Proof. unfold update. by destruct (dirty st) eqn:Hd; simpl; rewrite ?Hd. Qed.

Lemma showFormats_update (st : State) :
  current st → showFormats (update st) = showFormats st.
Proof. intros (_ & _ & Hs). unfold update. by destruct (dirty st). Qed.

(** X4.  The modifier click is idempotent: clicking the same item again with
    the modifier held changes nothing, flags and key lists included. *)
Theorem alt_click_twice_same (st : State) (i : nat) :
  settled st →
  step (step st (itemClick true i)) (itemClick true i) = step st (itemClick true i).
Proof.
  intros Hs. pose proof Hs as [Hv Hc].
  destruct (showFormats st !! i) as [l|] eqn:Hl.
  - destruct (showFormats_valid st i l Hs Hl) as (Hin & _ & Hlt & _).
    rewrite (step_itemClick st true i l Hl).
    set (st1 := update (onItemClick true l st)).
    assert (showFormats st1 = showFormats st) as Hs1.
    { unfold st1. by rewrite views_flags_only_show. }
    assert (heap st1 = toggle l (clearAll (showFormats st) (heap st))) as Hh1.
    { unfold st1. by rewrite heap_update. }
    assert (dirty st1 = false) as Hd1 by done.
    assert (current st1) as (Ha1 & Hi1 & Hsh1) by by apply current_update_dirty.
    clearbody st1.
    rewrite (step_itemClick st1 true i l) by by rewrite Hs1.
    assert (heap (update (onItemClick true l st1)) = heap st1) as Hh2.
    { rewrite heap_update. simpl. rewrite Hs1, Hh1. by apply alt_click_again. }
    assert (removeFormats (update (onItemClick true l st1)) = removeFormats st1) as Hr2.
    { by rewrite removeFormats_update. }
    destruct (current_update_dirty (onItemClick true l st1) eq_refl) as (Ha2 & Hi2 & Hs2).
    apply state_eq.
    + done.
    + done.
    + by rewrite surrounder_update.
    + by rewrite Hd1.
    + by rewrite Ha2, Hh2, Hr2.
    + by rewrite Hi2, Hh2, Hr2.
    + by rewrite Hs2, Hh2, Hr2.
    + by rewrite disabled_update.
    + by rewrite subscribed_update.
  - rewrite (step_itemClick_none st true i Hl).
    rewrite step_itemClick_none by by rewrite showFormats_update.
    apply update_update.
Qed.

Lemma alt_click_twice_same_witness :
  step (step (run [registration (entry "bold" true); registration (entry "italic" true)]
                  alone)
             (itemClick true 1))
       (itemClick true 1)
  = step (run [registration (entry "bold" true); registration (entry "italic" true)] alone)
         (itemClick true 1).
Proof.
  apply (alt_click_twice_same
           (run [registration (entry "bold" true); registration (entry "italic" true)]
                alone) 1).
  split; [|by repeat split].
  intros l Hl. vm_compute in Hl |- *.
  repeat (apply elem_of_cons in Hl as [->|Hl]; [lia|]).
  by apply elem_of_nil in Hl.
Defined.

(** X5.  After a modifier click on an item, the keys that the next removal
    passes as active are, in registration order, those of the clicked entry
    and of the entries that are not offered in the dropdown and were active;
    all other keys are passed as inactive. *)
Theorem alt_click_selects_keys (st : State) (i : nat) (l : loc) :
  settled st → showFormats st !! i = Some l →
  activeKeys (step st (itemClick true i))
  = (λ l', RemoveFormat.key (deref (heap st) l'))
      <$> filter (λ l', l' = l ∨ (¬ RemoveFormat.show (deref (heap st) l')
                               ∧ RemoveFormat.active (deref (heap st) l')))
                 (removeFormats st)
  ∧ inactiveKeys (step st (itemClick true i))
    = (λ l', RemoveFormat.key (deref (heap st) l'))
        <$> filter (λ l', l' ≠ l ∧ (RemoveFormat.show (deref (heap st) l')
                                   ∨ ¬ RemoveFormat.active (deref (heap st) l')))
                   (removeFormats st).
Proof.
  intros Hs Hl. pose proof Hs as [Hv Hc].
  destruct (showFormats_valid st i l Hs Hl) as (Hin & _ & Hlt & _).
  rewrite (step_itemClick st true i l Hl).
  destruct (current_update_dirty (onItemClick true l st) eq_refl) as (-> & -> & _).
  rewrite heap_update, removeFormats_update. simpl.
  assert (∀ l', l' ∈ removeFormats st →
    deref (toggle l (clearAll (showFormats st) (heap st))) l' =
      if decide (l' = l) then RemoveFormat.set_active true (deref (heap st) l')
      else if decide (RemoveFormat.show (deref (heap st) l'))
           then RemoveFormat.set_active false (deref (heap st) l')
           else deref (heap st) l') as Hderef.
  { intros l' Hl'. rewrite deref_alt_click; [|done|done|by apply Hv].
    case_decide; [done|].
    destruct (decide (l' ∈ showFormats st)) as [Hsh|Hsh];
      rewrite <- visible_showFormats in Hsh by done; unfold visible in Hsh.
    - destruct Hsh as [_ Hsh]. rewrite decide_True; [done|]. by rewrite Hsh.
    - rewrite decide_False; [done|]. intros Hshow%Is_true_true. tauto. }
  unfold activeKeys_of, inactiveKeys_of. split.
  - rewrite (filter_ext_in _
      (λ l', l' = l ∨ (¬ RemoveFormat.show (deref (heap st) l')
                      ∧ RemoveFormat.active (deref (heap st) l')))).
    + apply fmap_ext_in. intros l' [_ Hl']%list_elem_of_filter.
      rewrite Hderef by done. by repeat case_decide.
    + intros l' Hl'. rewrite Hderef by done.
      repeat case_decide; simpl; tauto.
  - rewrite (filter_ext_in _
      (λ l', l' ≠ l ∧ (RemoveFormat.show (deref (heap st) l')
                      ∨ ¬ RemoveFormat.active (deref (heap st) l')))).
    + apply fmap_ext_in. intros l' [_ Hl']%list_elem_of_filter.
      rewrite Hderef by done. by repeat case_decide.
    + intros l' Hl'. rewrite Hderef by done.
      repeat case_decide; simpl; rewrite ?negb_True; tauto.
Qed.

Lemma alt_click_selects_keys_witness :
  activeKeys (step (run [registration (entry "bold" true);
                         registration (entry "italic" false)] alone)
                   (itemClick true 1))
  = ["simple spans"; "italic"].
Proof.
  refine (eq_trans (proj1 (alt_click_selects_keys
            (run [registration (entry "bold" true); registration (entry "italic" false)]
                 alone) 1 2 _ eq_refl)) _).
  - split; [|by repeat split].
    intros l Hl. vm_compute in Hl |- *.
    repeat (apply elem_of_cons in Hl as [->|Hl]; [lia|]).
    by apply elem_of_nil in Hl.
  - by vm_compute.
Defined.

(** ** Histories *)

Lemma removeFormats_step (st : State) (ev : Event) :
  removeFormats (step st ev)
  = removeFormats st
    ++ match ev with registration _ => [length (heap st)] | _ => [] end.
Proof.
  unfold step. rewrite removeFormats_update.
  destruct ev as [e|alt i| |v| |]; simpl; case_subscribed; rewrite ?app_nil_r; try done.
  by destruct (showFormats st !! i).
Qed.

Lemma removed_step (st : State) (ev : Event) :
  Surrounder.removed (surrounder (step st ev))
  = Surrounder.removed (surrounder st)
    ++ (if is_removal ev then [(activeKeys st, inactiveKeys st)] else []).
Proof.
  unfold step. rewrite surrounder_update.
  destruct ev as [e|alt i| |v| |]; simpl; case_subscribed; rewrite ?app_nil_r; try done.
  by destruct (showFormats st !! i).
Qed.

Lemma formats_step (st : State) (ev : Event) :
  Surrounder.formats (surrounder (step st ev)) = Surrounder.formats (surrounder st).
Proof.
  unfold step. rewrite surrounder_update.
  destruct ev as [e|alt i| |v| |]; simpl; case_subscribed; try done.
  by destruct (showFormats st !! i).
Qed.

Lemma builtin_listed (b : loc) (st : State) :
  builtin_kept b st → b ∈ removeFormats st → key ∈ activeKeys st.
Proof.
  intros [(-> & _ & _) Hb] Hreg.
  pose proof (keys_of_listed (heap st) (removeFormats st) b Hreg) as Hlisted.
  unfold deref in Hlisted. by rewrite (list_lookup_total_correct _ _ _ Hb) in Hlisted.
Qed.

Lemma removals_run (b : loc) (evs : list Event) (st : State) :
  builtin_kept b st → b ∈ removeFormats st →
  ∃ calls,
    Surrounder.removed (surrounder (run evs st))
    = Surrounder.removed (surrounder st) ++ calls
    ∧ length calls = removals evs
    ∧ Forall (λ c, key ∈ c.1) calls.
Proof.
  revert st. induction evs as [|ev evs IH]; intros st Hk Hreg.
  { exists []. by rewrite app_nil_r. }
  destruct (IH (step st ev)) as (calls & Hcalls & Hlen & Hall).
  { by apply builtin_kept_step. }
  { rewrite removeFormats_step. apply elem_of_app. by left. }
  change (run (ev :: evs) st) with (run evs (step st ev)).
  rewrite Hcalls, removed_step, removals_cons, <- app_assoc.
  eexists. split; [done|].
  destruct (is_removal ev); simpl; [|done].
  split; [by rewrite Hlen|].
  constructor; [|done]. simpl. by apply builtin_listed with b.
Qed.

(** X6.  A mounted button calls [surrounder.remove] once for each removal
    requested by the button or the shortcut and at no other time, and every
    one of these calls has [simple spans] among the keys passed as active. *)
Theorem every_removal_strips_simple_spans
    (h : Heap) (formats : list loc) (s : Surrounder.t) (evs : list Event) :
  ∃ calls,
    Surrounder.removed (surrounder (run evs (mount h formats s)))
    = Surrounder.removed s ++ calls
    ∧ length calls = removals evs
    ∧ Forall (λ c, "simple spans" ∈ c.1) calls.
Proof.
  apply (removals_run (length h) evs (mount h formats s)).
  - apply builtin_kept_mount.
  - simpl. apply elem_of_app. right. by apply list_elem_of_singleton.
Qed.

(** What a history keeps of the objects that were there before it. *)
Lemma heap_step_old (st : State) (ev : Event) (l : loc) (f : RemoveFormat.t) :
  heap st !! l = Some f →
  ∃ v, heap (step st ev) !! l = Some (RemoveFormat.set_active v f).
Proof.
  intros Hf. unfold step. rewrite heap_update.
  assert (∃ v, heap st !! l = Some (RemoveFormat.set_active v f)) as Hsame.
  { exists (RemoveFormat.active f). by rewrite set_active_self. }
  destruct ev as [e|alt i| |v| |]; simpl; case_subscribed; try done.
  - exists (RemoveFormat.active f). rewrite set_active_self. by apply lookup_app_l_Some.
  - destruct (showFormats st !! i) as [l0|]; [|done].
    destruct (flags_only_onItemClick alt l0 st l) as [v Hv].
    exists v. by rewrite Hv, Hf.
Qed.

Lemma length_heap_step (st : State) (ev : Event) :
  length (heap (step st ev))
  = length (heap st) + (if is_registration ev then 1 else 0).
Proof.
  unfold step. rewrite heap_update.
  destruct ev as [e|alt i| |v| |]; simpl; case_subscribed; rewrite ?length_app; simpl; try lia.
  destruct (showFormats st !! i) as [l0|]; [|lia].
  rewrite heap_onItemClick_length. lia.
Qed.

Lemma registry_run (evs : list Event) (st : State) :
  removeFormats st `prefix_of` removeFormats (run evs st)
  ∧ length (removeFormats (run evs st)) = length (removeFormats st) + registrations evs
  ∧ length (heap (run evs st)) = length (heap st) + registrations evs
  ∧ ∀ l f, heap st !! l = Some f →
      ∃ v, heap (run evs st) !! l = Some (RemoveFormat.set_active v f).
Proof.
  revert st. induction evs as [|ev evs IH]; intros st.
  { change (registrations []) with 0. split_and!; [done|simpl; lia|simpl; lia|].
    intros l f Hf. exists (RemoveFormat.active f). by rewrite set_active_self. }
  destruct (IH (step st ev)) as (Hpre & Hlen & Hheap & Hold).
  change (run (ev :: evs) st) with (run evs (step st ev)).
  rewrite registrations_cons. split_and!.
  - etrans; [|exact Hpre]. rewrite removeFormats_step. by apply prefix_app_r.
  - rewrite Hlen, removeFormats_step, length_app. destruct ev; simpl; lia.
  - rewrite Hheap, length_heap_step. lia.
  - intros l f Hf. destruct (heap_step_old st ev l f Hf) as [v Hv].
    destruct (Hold l _ Hv) as [w Hw]. exists w. by rewrite Hw.
Qed.

(** X7.  The registry is append-only.  After any history the references it
    held are still its first references, in order; it and the heap have
    grown by one for each registration; and every object that was there
    still has its [key], [name] and [show]. *)
Theorem registry_append_only (st : State) (evs : list Event) :
  removeFormats st `prefix_of` removeFormats (run evs st)
  ∧ length (removeFormats (run evs st)) = length (removeFormats st) + registrations evs
  ∧ length (heap (run evs st)) = length (heap st) + registrations evs
  ∧ (∀ l, l < length (heap st) →
       RemoveFormat.key (deref (heap (run evs st)) l) = RemoveFormat.key (deref (heap st) l)
       ∧ RemoveFormat.name (deref (heap (run evs st)) l)
         = RemoveFormat.name (deref (heap st) l)
       ∧ RemoveFormat.show (deref (heap (run evs st)) l)
         = RemoveFormat.show (deref (heap st) l)).
Proof.
  destruct (registry_run evs st) as (Hpre & Hlen & Hheap & Hold).
  split_and!; try done.
  intros l Hl. destruct (lookup_lt_is_Some_2 _ _ Hl) as [f Hf].
  destruct (Hold l f Hf) as [v Hv]. unfold deref.
  by rewrite (list_lookup_total_correct _ _ _ Hf), (list_lookup_total_correct _ _ _ Hv).
Qed.

Lemma registry_append_only_witness :
  RemoveFormat.show
    (deref (heap (run [registration (entry "bold" true); itemClick true 0;
                       itemClick false 0] alone)) 0)
  = RemoveFormat.show (deref (heap alone) 0).
Proof.
  refine (proj2 (proj2 (proj2 (proj2 (proj2 (registry_append_only alone
            [registration (entry "bold" true); itemClick true 0; itemClick false 0])))
            0 _))).
  vm_compute. lia.
Defined.

Lemma formats_run (evs : list Event) (st : State) :
  Surrounder.formats (surrounder (run evs st)) = Surrounder.formats (surrounder st).
Proof.
  revert st. induction evs as [|ev evs IH]; intros st; [done|].
  change (run (ev :: evs) st) with (run evs (step st ev)).
  by rewrite IH, formats_step.
Qed.

(** X8.  Mounting the button registers one format with the surrounder, under
    the key of the entry it appended to the registry, and nothing that
    happens afterwards registers another format or takes one away. *)
Theorem format_registered_once
    (h : Heap) (formats : list loc) (s : Surrounder.t) (evs : list Event) :
  Surrounder.formats (surrounder (run evs (mount h formats s)))
  = Surrounder.formats s ++ [(key, format)]
  ∧ RemoveFormat.key (deref (heap (run evs (mount h formats s))) (length h)) = key.
Proof.
  split; [by rewrite formats_run|].
  destruct (builtin_kept_run (length h) evs _ (builtin_kept_mount h formats s)) as [_ Hb].
  unfold deref. by rewrite (list_lookup_total_correct _ _ _ Hb).
Qed.

Lemma disabled_step (st : State) (ev : Event) :
  subscribed st = true →
  disabled st = Some (negb (Surrounder.active (surrounder st))) →
  disabled (step st ev) = Some (negb (Surrounder.active (surrounder (step st ev)))).
Proof.
  intros Hsub Hd. unfold step. rewrite disabled_update, surrounder_update.
  destruct (emitted ev) as [v|] eqn:Hev.
  - by destruct (handle_emitting ev st v Hsub Hev) as [-> ->].
  - by destruct (handle_silent ev st Hev) as [-> ->].
Qed.

Lemma active_step_silent (st : State) (ev : Event) :
  emitted ev = None →
  Surrounder.active (surrounder (step st ev)) = Surrounder.active (surrounder st).
Proof.
  intros Hev. unfold step. rewrite surrounder_update.
  by destruct (handle_silent ev st Hev) as [_ ->].
Qed.

Lemma disabled_run (evs : list Event) (st : State) :
  subscribed st = true →
  disabled st = Some (negb (Surrounder.active (surrounder st))) →
  disabled (run evs st) = Some (negb (Surrounder.active (surrounder (run evs st))))
  ∧ (latest evs = None →
     Surrounder.active (surrounder (run evs st)) = Surrounder.active (surrounder st)).
Proof.
  intros Hsub.
  induction evs as [|ev evs IH] using rev_ind; intros Hd; [done|].
  destruct (IH Hd) as [Hdis Hact].
  rewrite run_snoc, latest_snoc. split.
  { apply disabled_step; [by rewrite subscribed_run | done]. }
  destruct (emitted ev) eqn:Hev; [done|].
  intros Hnone. rewrite active_step_silent by done. by apply Hact.
Qed.

(** X9.  From the moment the button is mounted [disabled] is never
    undefined: it is the negation of the value the surrounder's [active]
    store holds, and as long as the store has not emitted it is the negation
    of the value the store held at mount time. *)
Theorem disabled_defined_once_mounted
    (h : Heap) (formats : list loc) (s : Surrounder.t) (evs : list Event) :
  disabled (run evs (mount h formats s))
  = Some (negb (Surrounder.active (surrounder (run evs (mount h formats s)))))
  ∧ (latest evs = None →
     disabled (run evs (mount h formats s)) = Some (negb (Surrounder.active s))).
Proof.
  destruct (disabled_run evs (mount h formats s) eq_refl eq_refl) as [Hd Ha].
  split; [done|]. intros Hnone. by rewrite Hd, Ha.
Qed.

Lemma disabled_defined_once_mounted_witness :
  disabled (run [registration (entry "bold" false); itemClick false 0; removeAction]
                (mount [] [] Surrounder.make))
  = Some true.
Proof.
  exact (proj2 (disabled_defined_once_mounted [] [] Surrounder.make
                  [registration (entry "bold" false); itemClick false 0; removeAction])
               eq_refl).
Defined.

(** ** The rich-text input *)

Lemma richtext_run_snoc (acts : list RichText.Action) (a : RichText.Action)
    (st : RichText.State) :
  RichText.run (acts ++ [a]) st = RichText.step (RichText.run acts st) a.
Proof. unfold RichText.run. by rewrite foldl_snoc. Qed.

(** What a step keeps: the identity of the input and of its element, the
    array of the store, and the name of every api object. *)
Lemma richtext_step_frame (st : RichText.State) (a : RichText.Action) :
  RichText.api (RichText.step st a) = RichText.api st
  ∧ RichText.richTextDiv (RichText.step st a) = RichText.richTextDiv st
  ∧ RichText.editingInputs (RichText.step st a) = RichText.editingInputs st
  ∧ (∀ l, l ≠ RichText.api st →
       RichText.inputs (RichText.step st a) !! l = RichText.inputs st !! l)
  ∧ ∃ v, RichText.inputs (RichText.step st a) !! RichText.api st
         = EditingInputAPI.set_focusable v <$> RichText.inputs st !! RichText.api st.
Proof.
  assert (∃ v, RichText.inputs st !! RichText.api st
               = EditingInputAPI.set_focusable v <$> RichText.inputs st !! RichText.api st)
    as Hsame.
  { destruct (RichText.inputs st !! RichText.api st) as [[n f]|]; [by exists f|by exists false]. }
  unfold RichText.step, RichText.update.
  destruct a as [| | |v|other| |ev]; simpl; destruct (RichText.invalidated st); simpl;
    split_and!; try done;
    try (intros l Hl; by apply list_lookup_alter_ne);
    try (eexists; by apply list_lookup_alter_eq).
Qed.

Lemma richtext_step_settled (st : RichText.State) (a : RichText.Action) :
  RichText.settled st → RichText.settled (RichText.step st a).
Proof.
  intros (Hinv & input & Hin & Hname & Hfoc).
  unfold RichText.settled, RichText.step, RichText.update.
  destruct a as [| | |v|other| |ev]; simpl; rewrite ?Hinv; simpl;
    (split; [done|]);
    try (exists input; by split_and!);
    (eexists; split_and!;
       [by rewrite list_lookup_alter_eq, Hin | done | done]).
Qed.

Lemma richtext_mount_settled (hidden0 : bool) (others : list EditingInputAPI.t)
    (area : list nat) (focused : option nat) (div : nat)
    (button : RemoveFormatButton.State) :
  RichText.settled (RichText.mount hidden0 others area focused div button).
Proof.
  split; [done|]. simpl. eexists. split_and!.
  - by rewrite list_lookup_alter_eq, list_lookup_middle.
  - done.
  - done.
Qed.

Lemma richtext_run_settled (acts : list RichText.Action) (st : RichText.State) :
  RichText.settled st → RichText.settled (RichText.run acts st).
Proof.
  revert st. induction acts as [|a acts IH]; intros st Hs; [done|].
  apply IH. by apply richtext_step_settled.
Qed.

Lemma richtext_run_frame (acts : list RichText.Action) (st : RichText.State) :
  RichText.api (RichText.run acts st) = RichText.api st
  ∧ RichText.richTextDiv (RichText.run acts st) = RichText.richTextDiv st
  ∧ RichText.editingInputs (RichText.run acts st) = RichText.editingInputs st
  ∧ (∀ l, l ≠ RichText.api st →
       RichText.inputs (RichText.run acts st) !! l = RichText.inputs st !! l).
Proof.
  revert st. induction acts as [|a acts IH]; intros st; [done|].
  destruct (IH (RichText.step st a)) as (Hapi & Hdiv & Harea & Hothers).
  destruct (richtext_step_frame st a) as (Hapi1 & Hdiv1 & Harea1 & Hothers1 & _).
  change (RichText.run (a :: acts) st) with (RichText.run acts (RichText.step st a)).
  rewrite Hapi, Hdiv, Harea, Hapi1, Hdiv1, Harea1. split_and!; try done.
  intros l Hl. rewrite Hothers by by rewrite Hapi1. by apply Hothers1.
Qed.

(** X10.  Whatever happened to a mounted input, the type guard accepts what
    [getInputAPI] returns for the input's own element and rejects what it
    returns for any other target ([null]); in general the guard accepts an
    input exactly when it is not [null] and its name is [rich-text]. *)
Theorem getInputAPI_passes_guard
    (hidden0 : bool) (others : list EditingInputAPI.t) (area : list nat)
    (focused : option nat) (div : nat) (button : RemoveFormatButton.State)
    (acts : list RichText.Action) (target : nat) :
  RichText.editingInputIsRichText
    (RichText.getInputAPI target
       (RichText.run acts (RichText.mount hidden0 others area focused div button))
     ≫= λ l, RichText.inputs
                (RichText.run acts (RichText.mount hidden0 others area focused div button))
              !! l)
  = bool_decide (target = div)
  ∧ (RichText.getInputAPI target
       (RichText.run acts (RichText.mount hidden0 others area focused div button))
     = if decide (target = div) then Some (length others) else None)
  ∧ RichText.editingInputIsRichText None = false
  ∧ (∀ input, RichText.editingInputIsRichText (Some input) = true
              ↔ EditingInputAPI.name input = "rich-text").
Proof.
  set (st0 := RichText.mount hidden0 others area focused div button).
  destruct (richtext_run_settled acts st0) as (_ & input & Hin & Hname & _).
  { apply richtext_mount_settled. }
  destruct (richtext_run_frame acts st0) as (Hapi & Hdiv & _ & _).
  unfold RichText.getInputAPI. rewrite Hdiv, Hapi.
  change (RichText.richTextDiv st0) with div.
  change (RichText.api st0) with (length others).
  rewrite Hapi in Hin. change (RichText.api st0) with (length others) in Hin.
  split_and!; try done.
  - case_decide; simpl.
    + rewrite Hin. simpl. rewrite Hname. by rewrite bool_decide_eq_true_2.
    + by rewrite bool_decide_eq_false_2.
  - intros i. simpl. apply String.eqb_eq.
Qed.

Lemma getInputAPI_passes_guard_witness :
  RichText.editingInputIsRichText
    (Some {| EditingInputAPI.name := "rich-text"; EditingInputAPI.focusable := true |})
  = true
  ∧ RichText.editingInputIsRichText
      (Some {| EditingInputAPI.name := "plain-text"; EditingInputAPI.focusable := true |})
    ≠ true.
Proof.
  pose proof (proj2 (proj2 (proj2 (getInputAPI_passes_guard false [] [] None 0 alone [] 0))))
    as Hguard.
  split.
  - by apply Hguard.
  - intros Hplain%Hguard. discriminate Hplain.
Defined.

(** X11.  Between two events [api.focusable] is the negation of [hidden],
    also for those who read the api object through the [editingInputs]
    store, where the input was pushed once when it was mounted; the api
    objects of the other inputs of the area are never written. *)
Theorem focusable_mirrors_hidden
    (hidden0 : bool) (others : list EditingInputAPI.t) (area : list nat)
    (focused : option nat) (div : nat) (button : RemoveFormatButton.State)
    (acts : list RichText.Action) (st : RichText.State) :
  st = RichText.run acts (RichText.mount hidden0 others area focused div button) →
  EditingInputAPI.focusable (RichText.inputs st !!! RichText.api st)
  = negb (RichText.hidden st)
  ∧ EditingInputAPI.name (RichText.inputs st !!! RichText.api st) = "rich-text"
  ∧ RichText.editingInputs st = area ++ [RichText.api st]
  ∧ (∀ l, l < length others → RichText.inputs st !! l = others !! l).
Proof.
  intros ->. set (st0 := RichText.mount hidden0 others area focused div button).
  destruct (richtext_run_settled acts st0) as (_ & input & Hin & Hname & Hfoc).
  { apply richtext_mount_settled. }
  destruct (richtext_run_frame acts st0) as (Hapi & _ & Harea & Hothers).
  rewrite (list_lookup_total_correct _ _ _ Hin), Harea, Hapi.
  split_and!; try done.
  intros l Hl. rewrite Hothers by (change (RichText.api st0) with (length others); lia).
  simpl. rewrite list_lookup_alter_ne by lia. by apply lookup_app_l.
Qed.

Lemma focusable_mirrors_hidden_witness :
  EditingInputAPI.focusable
    (RichText.inputs
       (RichText.run [RichText.callToggle; RichText.domFocusin; RichText.propHidden true]
          (RichText.mount false [] [] None 0 alone))
     !!! 0)
  = false.
Proof.
  exact (proj1 (focusable_mirrors_hidden false [] [] None 0 alone
                  [RichText.callToggle; RichText.domFocusin; RichText.propHidden true]
                  _ eq_refl)).
Defined.

(** X12.  [toggle] returns the new value of [hidden], the negation of the
    old one; after it the input is focusable exactly when it was hidden
    before; and a second [toggle] brings [hidden] and every api object back,
    each of the two having set the [editingInputs] store once. *)
Theorem toggle_twice_restores (st : RichText.State) :
  RichText.settled st →
  (RichText.toggle st).1 = negb (RichText.hidden st)
  ∧ RichText.hidden (RichText.step st RichText.callToggle) = (RichText.toggle st).1
  ∧ EditingInputAPI.focusable
      (RichText.inputs (RichText.step st RichText.callToggle) !!! RichText.api st)
    = RichText.hidden st
  ∧ RichText.hidden (RichText.run [RichText.callToggle; RichText.callToggle] st)
    = RichText.hidden st
  ∧ RichText.inputs (RichText.run [RichText.callToggle; RichText.callToggle] st)
    = RichText.inputs st
  ∧ RichText.sets (RichText.run [RichText.callToggle; RichText.callToggle] st)
    = 2 + RichText.sets st.
Proof.
  intros (Hinv & input & Hin & Hname & Hfoc).
  unfold RichText.run, RichText.step, RichText.update. simpl.
  split_and!; try done.
  - rewrite list_lookup_total_alter_eq by by eapply lookup_lt_Some.
    simpl. apply negb_involutive.
  - apply negb_involutive.
  - rewrite negb_involutive. apply list_eq. intros l.
    destruct (decide (l = RichText.api st)) as [->|Hne].
    + rewrite !list_lookup_alter_eq, Hin. simpl. rewrite <- Hfoc. by destruct input.
    + by rewrite !list_lookup_alter_ne.
Qed.

Lemma toggle_twice_restores_witness :
  RichText.inputs
    (RichText.run [RichText.callToggle; RichText.callToggle]
       (RichText.mount false [] [] None 0 alone))
  = RichText.inputs (RichText.mount false [] [] None 0 alone).
Proof.
  refine (proj1 (proj2 (proj2 (proj2 (proj2 (toggle_twice_restores
            (RichText.mount false [] [] None 0 alone) _)))))).
  split; [done|]. eexists. by split_and!.
Defined.

(** X13.  [moveCaretToEnd] does nothing at all on an element whose text is
    the empty string, and places the caret after the content in every other
    case, also when the text is [null]; it never changes the text.
    [refocus] blurs, focuses and only then, unless the text is empty, places
    the caret. *)
Theorem moveCaretToEnd_skips_empty (richText : Editable.t) :
  (Editable.textContent richText = Some "" → RichText.moveCaretToEnd richText = richText)
  ∧ (Editable.textContent richText ≠ Some "" →
     Editable.calls (RichText.moveCaretToEnd richText)
     = Editable.calls richText ++ [Editable.placeCaretAfterContent])
  ∧ Editable.textContent (RichText.moveCaretToEnd richText) = Editable.textContent richText
  ∧ Editable.calls (RichText.refocus richText)
    = Editable.calls richText ++ [Editable.blur; Editable.focus]
      ++ (if decide (Editable.textContent richText = Some "") then []
          else [Editable.placeCaretAfterContent]).
Proof.
  unfold RichText.refocus, RichText.moveCaretToEnd.
  destruct richText as [[[|c text]|] calls]; simpl; split_and!; try done.
  - by rewrite <- !app_assoc.
  - by rewrite <- !app_assoc.
  - by rewrite <- !app_assoc.
Qed.

Lemma moveCaretToEnd_skips_empty_witness :
  RichText.moveCaretToEnd {| Editable.textContent := Some ""; Editable.calls := [] |}
  = {| Editable.textContent := Some ""; Editable.calls := [] |}
  ∧ Editable.calls
      (RichText.moveCaretToEnd {| Editable.textContent := None; Editable.calls := [] |})
    = [Editable.placeCaretAfterContent].
Proof.
  split.
  - by apply (moveCaretToEnd_skips_empty
                {| Editable.textContent := Some ""; Editable.calls := [] |}).
  - by apply (moveCaretToEnd_skips_empty
                {| Editable.textContent := None; Editable.calls := [] |}).
Defined.

Lemma focusedInput_step (st : RichText.State) (a : RichText.Action) :
  RichText.focusedInput (RichText.step st a)
  = match RichText.focuses st a with
    | Some input => Some input
    | None => RichText.focusedInput st
    end.
Proof.
  unfold RichText.step, RichText.update.
  destruct a as [| | |v|other| |ev]; simpl; by destruct (RichText.invalidated st).
Qed.

Lemma lastFocused_snoc (st : RichText.State) (acts : list RichText.Action)
    (a : RichText.Action) :
  RichText.lastFocused st (acts ++ [a])
  = match RichText.focuses st a with
    | Some input => Some input
    | None => RichText.lastFocused st acts
    end.
Proof.
  unfold RichText.lastFocused. rewrite omap_app. simpl.
  destruct (RichText.focuses st a); [apply last_snoc | by rewrite app_nil_r].
Qed.

Lemma focuses_api (st st' : RichText.State) (a : RichText.Action) :
  RichText.api st' = RichText.api st → RichText.focuses st' a = RichText.focuses st a.
Proof. intros Hapi. destruct a; simpl; by rewrite ?Hapi. Qed.

Lemma focusedInput_run (acts : list RichText.Action) (st : RichText.State) :
  RichText.focusedInput (RichText.run acts st)
  = match RichText.lastFocused st acts with
    | Some input => Some input
    | None => RichText.focusedInput st
    end.
Proof.
  induction acts as [|a acts IH] using rev_ind; [done|].
  destruct (richtext_run_frame acts st) as (Hapi & _).
  rewrite richtext_run_snoc, focusedInput_step, lastFocused_snoc.
  rewrite (focuses_api st _ a Hapi).
  by destruct (RichText.focuses st a).
Qed.

Lemma toolbar_subscribed_step (st : RichText.State) (a : RichText.Action) :
  subscribed (RichText.toolbar (RichText.step st a)) = subscribed (RichText.toolbar st).
Proof.
  unfold RichText.step, RichText.update.
  destruct a as [| | |v|other| |ev]; simpl; destruct (RichText.invalidated st); simpl;
    rewrite subscribed_update;
    first [ done
          | apply (subscribed_handle focusin)
          | apply (subscribed_handle focusout)
          | apply subscribed_handle ].
Qed.

Lemma toolbar_subscribed_run (acts : list RichText.Action) (st : RichText.State) :
  subscribed (RichText.toolbar (RichText.run acts st)) = subscribed (RichText.toolbar st).
Proof.
  induction acts as [|a acts IH] using rev_ind; [done|].
  by rewrite richtext_run_snoc, toolbar_subscribed_step.
Qed.

Lemma toolbar_mount (hidden0 : bool) (others : list EditingInputAPI.t) (area : list nat)
    (focused : option nat) (div : nat) (button : State) :
  RichText.toolbar (RichText.mount hidden0 others area focused div button)
  = update button.
Proof. done. Qed.

Lemma focus_disabled (st : State) :
  subscribed st = true →
  disabled (update (RichTextInput.setFocus st)) = Some false
  ∧ disabled (update (RichTextInput.removeFocus st)) = Some true.
Proof.
  intros Hsub. rewrite !disabled_update.
  unfold RichTextInput.setFocus, RichTextInput.removeFocus, emit. simpl.
  by rewrite Hsub.
Qed.

Lemma toolbar_step_focus (st : RichText.State) :
  subscribed (RichText.toolbar st) = true →
  disabled (RichText.toolbar (RichText.step st RichText.domFocusin)) = Some false
  ∧ disabled (RichText.toolbar (RichText.step st RichText.domFocusout)) = Some true.
Proof.
  intros Hsub. destruct (focus_disabled (RichText.toolbar st) Hsub) as [Hin Hout].
  unfold RichText.step, RichText.update. simpl.
  by destruct (RichText.invalidated st).
Qed.

(** X14.  Losing focus never unsets [focusedInput].  After any history of a
    mounted input the store names the rich-text input that gained focus
    last, this one or another, and keeps the value it had when no input
    gained focus; a focusout, of this input or of another, leaves it as it
    is.  Right after a focusout the remove-format button is disabled,
    although [focusedInput] still names the input that lost focus, and right
    after a focusin it is enabled. *)
Theorem focusedInput_survives_focusout
    (hidden0 : bool) (others : list EditingInputAPI.t) (area : list nat)
    (focused : option nat) (div : nat)
    (h : Heap) (formats : list loc) (s : Surrounder.t) (evs : list Event)
    (acts : list RichText.Action) (st : RichText.State) :
  st = RichText.mount hidden0 others area focused div (run evs (mount h formats s)) →
  RichText.focusedInput (RichText.run acts st)
  = match RichText.lastFocused st acts with
    | Some input => Some input
    | None => focused
    end
  ∧ (is_Some focused → is_Some (RichText.focusedInput (RichText.run acts st)))
  ∧ RichText.focusedInput (RichText.run (acts ++ [RichText.domFocusout]) st)
    = RichText.focusedInput (RichText.run acts st)
  ∧ RichText.focusedInput (RichText.run (acts ++ [RichText.otherFocusout]) st)
    = RichText.focusedInput (RichText.run acts st)
  ∧ RichText.focusedInput
      (RichText.run (acts ++ [RichText.domFocusin; RichText.domFocusout]) st)
    = Some (RichText.api st)
  ∧ disabled (RichText.toolbar
                (RichText.run (acts ++ [RichText.domFocusin; RichText.domFocusout]) st))
    = Some true
  ∧ disabled (RichText.toolbar (RichText.run (acts ++ [RichText.domFocusin]) st))
    = Some false.
Proof.
  intros Hst.
  assert (RichText.focusedInput st = focused) as Hfocused by by subst st.
  assert (∀ acts', subscribed (RichText.toolbar (RichText.run acts' st)) = true) as Hsub.
  { intros acts'. rewrite toolbar_subscribed_run. subst st.
    by rewrite toolbar_mount, subscribed_update, subscribed_run. }
  clear Hst.
  assert (∀ acts' a, RichText.focuses st a = None →
            RichText.focusedInput (RichText.run (acts' ++ [a]) st)
            = RichText.focusedInput (RichText.run acts' st)) as Hsilent.
  { intros acts' a Ha. by rewrite !focusedInput_run, lastFocused_snoc, Ha. }
  split_and!.
  - by rewrite focusedInput_run, Hfocused.
  - intros Hsome. rewrite focusedInput_run, Hfocused.
    by destruct (RichText.lastFocused st acts).
  - by apply Hsilent.
  - by apply Hsilent.
  - replace (acts ++ [RichText.domFocusin; RichText.domFocusout])
      with ((acts ++ [RichText.domFocusin]) ++ [RichText.domFocusout])
      by by rewrite <- app_assoc.
    rewrite Hsilent by done.
    by rewrite focusedInput_run, lastFocused_snoc.
  - replace (acts ++ [RichText.domFocusin; RichText.domFocusout])
      with ((acts ++ [RichText.domFocusin]) ++ [RichText.domFocusout])
      by by rewrite <- app_assoc.
    rewrite richtext_run_snoc. by apply toolbar_step_focus.
  - rewrite richtext_run_snoc. by apply toolbar_step_focus.
Qed.

Lemma focusedInput_survives_focusout_witness :
  RichText.focusedInput
    (RichText.run [RichText.domFocusin; RichText.domFocusout; RichText.otherFocusin 7;
                   RichText.otherFocusout; RichText.callToggle]
       (RichText.mount false [] [] None 0 alone))
  = Some 7.
Proof.
  exact (proj1 (focusedInput_survives_focusout false [] [] None 0 [] [] Surrounder.make []
                  [RichText.domFocusin; RichText.domFocusout; RichText.otherFocusin 7;
                   RichText.otherFocusout; RichText.callToggle]
                  _ eq_refl)).
Defined.

(** ** Entries that are not offered *)

Lemma hidden_not_shown (l : loc) (f : RemoveFormat.t) (st : State) :
  current st → heap st !! l = Some f → RemoveFormat.show f = false →
  l ∉ showFormats st.
Proof.
  intros (_ & _ & ->) Hf Hshow [Hl _]%list_elem_of_filter.
  unfold deref in Hl. by rewrite (list_lookup_total_correct _ _ _ Hf), Hshow in Hl.
Qed.

Lemma hidden_kept_step (l : loc) (f : RemoveFormat.t) (st : State) (ev : Event) :
  current st → heap st !! l = Some f → RemoveFormat.show f = false →
  heap (step st ev) !! l = Some f.
Proof.
  intros Hc Hf Hshow. pose proof (hidden_not_shown l f st Hc Hf Hshow) as Hns.
  unfold step. rewrite heap_update.
  destruct ev as [e|alt i| |v| |]; simpl; case_subscribed; try done.
  - by apply lookup_app_l_Some.
  - destruct (showFormats st !! i) as [l0|] eqn:Hi; [|done].
    assert (l0 ≠ l) as Hne.
    { intros ->. by apply Hns, list_elem_of_lookup_2 with i. }
    simpl. rewrite lookup_toggle_ne by done.
    destruct alt; [by rewrite clearAll_notin | done].
Qed.

(** X15.  An entry with [show = false] is out of the user's reach: no
    history of clicks (with or without the modifier), registrations,
    removals and focus changes writes any of its fields, so its [active]
    flag stays what it was when it was registered. *)
Theorem hidden_entries_never_change
    (st : State) (evs : list Event) (l : loc) (f : RemoveFormat.t) :
  current st → heap st !! l = Some f → RemoveFormat.show f = false →
  heap (run evs st) !! l = Some f
  ∧ (l ∉ showFormats (run evs st))
  ∧ RemoveFormat.active (deref (heap (run evs st)) l) = RemoveFormat.active f.
Proof.
  intros Hc Hf Hshow.
  assert (current (run evs st) ∧ heap (run evs st) !! l = Some f) as [Hc' Hf'].
  { revert st Hc Hf. induction evs as [|ev evs IH]; intros st Hc Hf; [done|].
    apply IH; [by apply current_step | by apply hidden_kept_step]. }
  split_and!; [done | by eapply hidden_not_shown |].
  unfold deref. by rewrite (list_lookup_total_correct _ _ _ Hf').
Qed.

Lemma hidden_entries_never_change_witness :
  heap (run [registration (entry "bold" true); itemClick true 0; itemClick false 0;
             removeAction]
            (step alone (registration (RemoveFormat.mk "cloze" "cloze" false false))))
    !! 1
  = Some (RemoveFormat.mk "cloze" "cloze" false false).
Proof.
  refine (proj1 (hidden_entries_never_change
            (step alone (registration (RemoveFormat.mk "cloze" "cloze" false false)))
            [registration (entry "bold" true); itemClick true 0; itemClick false 0;
             removeAction]
            1 (RemoveFormat.mk "cloze" "cloze" false false) _ eq_refl eq_refl)).
  by repeat split.
Defined.
